(** * LLM notifier: a shallow embedding of [src/main.ts] and its properties

    The development follows the source file top to bottom: JavaScript value
    conventions, the JPEG resizer, the snapshot list, the provider rotation
    and the [sendNotification] orchestration.  Collaborators that live
    outside the repository (the JPEG codec, the media manager, the device
    registry, the chat completion provider, the downstream notifier) are the
    fields of an interface record; every theorem quantifies over them. *)

From Stdlib Require Import ZArith Floats Lia Strings.Byte Strings.Ascii.
From stdpp Require Import base option list strings gmap.

Open Scope string_scope.
Open Scope Z_scope.

(** ** JavaScript conventions *)

Module Js.

(** A thrown value.  Only the message is kept. *)
Inductive Exn : Type :=
| Error (message : string).

(** [Result A] is the outcome of an expression that may throw. *)
Definition Result (A : Type) : Type := Exn + A.

(** Truthiness of an optional string: [undefined] and the empty string are
    falsy.  The truthy value itself is returned so that it can be used. *)
Definition truthy (o : option string) : option string :=
  match o with
  | Some (String a s) => Some (String a s)
  | _ => None
  end.

Definition is_truthy (o : option string) : bool :=
  match truthy o with Some _ => true | None => false end.

(** [a || b] on optional strings. *)
Definition or_else (a b : option string) : option string :=
  match truthy a with Some s => Some s | None => b end.

(** Optional chaining [a?.f]: [undefined] when [a] is. *)
Definition chain {A B : Type} (a : option A) (f : A -> option B) : option B :=
  match a with Some x => f x | None => None end.

(** [Array.prototype.push], as a new list. *)
Definition push {A : Type} (arr : list A) (x : A) : list A := arr ++ [x].

(** [ToInt32]: the operand conversion of the bitwise operators. *)
Definition toInt32 (z : Z) : Z := (z + 2 ^ 31) mod 2 ^ 32 - 2 ^ 31.

(** [a << k] on numbers holding integers. *)
Definition shl (a k : Z) : Z := toInt32 (Z.shiftl (toInt32 a) k).

(** [Math.round (a / b)] for integers [a] and [b > 0]: the nearest integer,
    a tie going up, which is [floor (a / b + 1/2)].  The quotients below stay
    far enough from a tie (at least [1 / (2 * b)]) for binary64 rounding of
    [a / b] not to change the result on image dimensions. *)
Definition round_div (a b : Z) : Z := (2 * a + b) / (2 * b).

(** [Math.floor (a / b)] for integers [a >= 0] and [b > 0]; a quotient
    that is not an integer stays at least [1 / b] below the next one, so
    binary64 rounding does not change the floor either. *)
Definition floor_div (a b : Z) : Z := a / b.

End Js.

Import Js.

(** ** Local JPEG resize (main.ts, lines 29-58) *)

Module ImageCodec.

Definition Buffer : Type := list byte.

(** What [jpeg.decode] returns and [jpeg.encode] takes: RGBA bytes, row
    major, four per pixel. *)
Record RawImage : Type := mkRawImage {
  data : list byte;
  width : Z;
  height : Z;
}.

(** The [jpeg-js] package and [Buffer.allocUnsafe] are not part of the
    repository.  [jpeg_decode] throws on input it cannot read;
    [allocUnsafe_garbage] is the content of freshly allocated memory. *)
Class Codec : Type := {
  jpeg_decode : Buffer -> Result RawImage;
  jpeg_encode : RawImage -> Z -> Result Buffer;
  allocUnsafe_garbage : nat -> byte;
}.

(** [Buffer.allocUnsafe size]: a [RangeError] for a negative size, else
    [size] bytes of whatever the memory held. *)
Definition allocUnsafe `{Codec} (size : Z) : Result Buffer :=
  if size <? 0 then inl (Error "The value of size is out of range")
  else inr (map allocUnsafe_garbage (seq 0 (Z.to_nat size))).

(** [src[i]] on a typed array: [undefined] outside the array. *)
Definition load (src : list byte) (i : Z) : option byte :=
  if i <? 0 then None else src !! Z.to_nat i.

(** [dst[i] = v] on a typed array: ignored outside the array; [undefined]
    is stored as 0. *)
Definition store (dst : list byte) (i : Z) (v : option byte) : list byte :=
  if i <? 0 then dst else <[Z.to_nat i := default Byte.x00 v]> dst.

(** The values of [i] in [for (let i = 0; i < n; i++)]. *)
Definition upto (n : Z) : list Z := map Z.of_nat (seq 0 (Z.to_nat n)).

(** Body of the inner loop (lines 42-48). *)
Definition resize_pixel (src : list byte) (sw dw sy y : Z)
  (dst : list byte) (x : Z) : list byte :=
  let sx := floor_div (x * sw) dw in
  let si := shl (sy * sw + sx) 2 in
  let di := shl (y * dw + x) 2 in
  let dst := store dst di (load src si) in
  let dst := store dst (di + 1) (load src (si + 1)) in
  let dst := store dst (di + 2) (load src (si + 2)) in
  store dst (di + 3) (Some Byte.xff).

(** Body of the outer loop (lines 40-49). *)
Definition resize_row (src : list byte) (sw sh dw dh : Z)
  (dst : list byte) (y : Z) : list byte :=
  let sy := floor_div (y * sh) dh in
  foldl (resize_pixel src sw dw sy y) dst (upto dw).

Definition resize_loops (src : list byte) (sw sh dw dh : Z)
  (dst : list byte) : list byte :=
  foldl (resize_row src sw sh dw dh) dst (upto dh).

(** The byte the loops give to channel [c] of destination pixel [(x, y)]. *)
Definition sampled (src : list byte) (sw sh dw dh x y c : Z) : byte :=
  if c =? 3 then Byte.xff
  else default Byte.x00
         (load src (4 * (floor_div (y * sh) dh * sw + floor_div (x * sw) dw) + c)).

(** The state of the loops after [n] pixels in row-major order: the length
    is kept and every pixel before the [n]-th holds its sampled bytes. *)
Definition done_upto (src : list byte) (sw sh dw dh : Z) (len : nat) (n : Z)
  (out : list byte) : Prop :=
  length out = len /\
  forall x y c : Z,
    0 <= y -> 0 <= x < dw -> y * dw + x < n -> 0 <= c < 4 ->
    load out (4 * (y * dw + x) + c) = Some (sampled src sw sh dw dh x y c).

Definition resizeJpegNearest `{Codec} (input : Buffer) (targetWidth quality : Z)
  : Result Buffer :=
  match jpeg_decode input with
  | inl e => inl e
  | inr img =>
      let src := data img in
      let sw := width img in
      let sh := height img in
      if (sw =? 0) || (sh =? 0) then inr input
      else
        let dw := Z.min targetWidth sw in
        if dw =? sw then inr input
        else
          let dh := Z.max 1 (round_div (sh * dw) sw) in
          match allocUnsafe (dw * dh * 4) with
          | inl e => inl e
          | inr dst =>
              let dst := resize_loops src sw sh dw dh dst in
              jpeg_encode (mkRawImage dst dw dh) quality
          end
  end.

Definition getJpegDimensions `{Codec} (input : Buffer) : Result (Z * Z) :=
  match jpeg_decode input with
  | inl e => inl e
  | inr img => inr (width img, height img)
  end.

(** Concrete codecs for the examples: one whose decoder rejects every
    input, and one that reads the input as a 4 x 2 image whose pixel bytes
    are the input itself and writes an image out as its pixel bytes. *)
Definition rejecting_codec : Codec := {|
  jpeg_decode := fun _ => inl (Error "SOI not found");
  jpeg_encode := fun img _ => inr (data img);
  allocUnsafe_garbage := fun _ => Byte.x2a;
|}.

Definition raw_codec : Codec := {|
  jpeg_decode := fun input => inr (mkRawImage input 4 2);
  jpeg_encode := fun img _ => inr (data img);
  allocUnsafe_garbage := fun _ => Byte.x2a;
|}.

(** Thirty-two bytes: pixel [k] is [(k, k, k, k)] in hexadecimal tens. *)
Definition sample_4x2 : Buffer :=
  [Byte.x10; Byte.x11; Byte.x12; Byte.x13; Byte.x20; Byte.x21; Byte.x22; Byte.x23;
   Byte.x30; Byte.x31; Byte.x32; Byte.x33; Byte.x40; Byte.x41; Byte.x42; Byte.x43;
   Byte.x50; Byte.x51; Byte.x52; Byte.x53; Byte.x60; Byte.x61; Byte.x62; Byte.x63;
   Byte.x70; Byte.x71; Byte.x72; Byte.x73; Byte.x80; Byte.x81; Byte.x82; Byte.x83].

End ImageCodec.

Import ImageCodec.

(** ** Snapshot list (main.ts, lines 60-73) *)

Definition buildImageList (mode : string) (full cropped : option string)
  : list string :=
  let lst : list string := [] in
  if String.eqb mode "both" then
    let lst := match truthy full with Some f => push lst f | None => lst end in
    let lst := match truthy cropped with Some c => push lst c | None => lst end in
    lst
  else if String.eqb mode "full" then
    match truthy full with
    | Some f => push lst f
    | None => match truthy cropped with Some c => push lst c | None => lst end
    end
  else (* 'cropped' *)
    match truthy cropped with
    | Some c => push lst c
    | None => match truthy full with Some f => push lst f | None => lst end
    end.

(** ** Computations that read and write a state and may throw *)

Module Eff.

Definition M (S A : Type) : Type := S -> Result A * S.

Definition ret {S A : Type} (a : A) : M S A := fun s => (inr a, s).

Definition throw {S A : Type} (e : Exn) : M S A := fun s => (inl e, s).

Definition bind {S A B : Type} (c : M S A) (k : A -> M S B) : M S B :=
  fun s =>
    match c s with
    | (inr a, s') => k a s'
    | (inl e, s') => (inl e, s')
    end.

(** [try { c } catch (e) { h e }]: the handler runs in the state the body
    left behind. *)
Definition try_catch {S A : Type} (c : M S A) (h : Exn -> M S A) : M S A :=
  fun s =>
    match c s with
    | (inr a, s') => (inr a, s')
    | (inl e, s') => h e s'
    end.

Definition gets {S A : Type} (f : S -> A) : M S A := fun s => (inr (f s), s).

Definition modify {S : Type} (f : S -> S) : M S unit := fun s => (inr tt, f s).

(** A synchronous call that may throw and touches no state. *)
Definition lift {S A : Type} (r : Result A) : M S A := fun s => (r, s).

(** Run a computation on a part [T] of the state [S]. *)
Definition zoom {S T A : Type} (get : S -> T) (set : T -> S -> S)
  (c : M T A) : M S A :=
  fun s => let '(r, t) := c (get s) in (r, set t s).

End Eff.

Import Eff.

Notation "'let*' x ':=' c 'in' k" := (bind c (fun x => k))
  (at level 10, x pattern, c at level 100, k at level 200).

(** ** The plugin (main.ts, lines 75-431) *)

Module Notifier.

(** A JavaScript number is an IEEE 754 binary64 value, which is what
    [float] is: products round to nearest, ties to even, and overflow to an
    infinity; there is one [nan]. *)
Definition number : Type := float.

(** [Math.max(a, b)]: [NaN] when either argument is [NaN], else the larger
    one, [+0] counting as larger than [-0]. *)
Definition Math_max (a b : number) : number :=
  if (PrimFloat.is_nan a || PrimFloat.is_nan b)%bool then PrimFloat.nan
  else if PrimFloat.ltb a b then b
  else if PrimFloat.ltb b a then a
  else if PrimFloat.get_sign a then b else a.

(** [a * b] on numbers. *)
Definition times (a b : number) : number := PrimFloat.mul a b.

(** [storageSettings.values] (lines 298-365).  A missing entry of the
    store reads as [None]. *)
Record StorageValues : Type := mkValues {
  enabled : bool;
  snapshotMode : option string;
  llmTimeoutMs : option number;
  chatCompletions : option (list string);
  userPrompt : string;
  includeOriginalMessage : bool;
}.

(** The parts of [NotifierOptions] the plugin reads or writes. *)
Record Detection : Type := mkDetection { id : option string }.

Record EventData : Type := mkEventData {
  detectionId : option string;
  detections : option (list Detection);
  sourceId : option string;
}.

Record RecordedEvent : Type := mkRecordedEvent {
  re_data : option EventData;
  eventId : option string;
}.

Record NotifierOptions : Type := mkOptions {
  subtitle : option string;
  body : option string;
  recordedEvent : option RecordedEvent;
  data_sourceId : option string;   (* options.data?.sourceId *)
}.

Definition empty_options : NotifierOptions := mkOptions None None None None.

(** A [MediaObject] is a handle of the host; [mo_sourceId] is the
    [sourceId] property read at line 190. *)
Record MediaObject : Type := mkMediaObject {
  mo_handle : nat;
  mo_sourceId : option string;
}.

Inductive Media : Type :=
| MediaString (s : string)
| MediaObj (mo : MediaObject).

Record Device : Type := mkDevice { device_id : string }.

(** One call received by the downstream notifier.  [c_options] is the
    reference that was passed and [c_options_value] the object it denoted at
    the time of the call. *)
Record Call : Type := mkCall {
  c_title : string;
  c_options : option nat;
  c_options_value : option NotifierOptions;
  c_media : option Media;
  c_icon : option Media;
}.

Inductive ContentPart : Type :=
| Text (text : string)
| ImageUrl (url : string).

(** The request of lines 98-141; [response_format] is a constant and is
    left out. *)
Record MessageTemplate : Type := mkTemplate {
  system_content : string;
  user_content : list ContentPart;
}.

Record Metadata : Type := mkMetadata {
  originalTitle : option string;
  originalSubtitle : option string;
  originalBody : option string;
  instruction : option string;
}.

(** [data.choices]: each entry stands for [choice.message.content]. *)
Record ChatCompletionData : Type := mkChat { choices : list (option string) }.

(** Values produced by [JSON.parse].  [JObject] lists the own properties of
    the parsed object, one entry per key. *)
#[warnings="-register-all"] Inductive Json : Type :=
| JNull
| JBool (b : bool)
| JNumber (n : Z)
| JString (s : string)
| JArray (items : list Json)
| JObject (fields : list (string * Json)).

Fixpoint assoc (k : string) (fields : list (string * Json)) : option Json :=
  match fields with
  | [] => None
  | (k', v) :: rest => if String.eqb k k' then Some v else assoc k rest
  end.

(** [json.k] for a value that is not [null]. *)
Definition prop (json : Json) (k : string) : option Json :=
  match json with
  | JObject fields => assoc k fields
  | _ => None
  end.

(** How a promise stands when the timer it is raced against fires. *)
Inductive Settlement (A : Type) : Type :=
| Fulfilled (a : A)
| Rejected (e : Exn)
| StillPending.

Arguments Fulfilled {A} a.
Arguments Rejected {A} e.
Arguments StillPending {A}.

(** [withTimeout] (lines 21-27): the promise if it has settled, else the
    rejection of the timer.  The message leaves out the number of
    milliseconds. *)
Definition withTimeout {A : Type} (p : Settlement A) (ms : number)
  (label : option string) : Result A :=
  match p with
  | Fulfilled a => inr a
  | Rejected e => inl e
  | StillPending =>
      inl (Error ((match truthy label with Some l => l | None => "operation" end)
                  ++ " timed out"))
  end.

(** Collaborators outside the repository.  Calls that are awaited take the
    time at which they are made, so that the same call may succeed once and
    fail later; the downstream notifier sees the calls it received before.
    [getChatCompletion t d m ms] is how the promise [d.getChatCompletion(m)]
    stands when a timer of [ms] milliseconds set at time [t] fires.
    [basePrompt] and [schema] are the two string literals of lines 83-96. *)
Class Host : Type := {
  host_codec :: Codec;
  convertMediaObjectToBuffer : nat -> MediaObject -> Result Buffer;
  toString_base64 : Buffer -> string;
  getDeviceById : string -> option Device;
  has_getDetectionInput : Device -> bool;
  getDetectionInput : nat -> Device -> string -> option string -> Result MediaObject;
  getChatCompletion :
    nat -> Device -> MessageTemplate -> number -> Settlement ChatCompletionData;
  JSON_parse : string -> Result Json;
  JSON_stringify : Metadata -> string;
  mixinDevice_sendNotification : list Call -> Call -> Result unit;
  basePrompt : string;
  schema : string;
}.

Record Stats : Type := mkStats {
  withSnapshot : nat;
  withoutSnapshot : nat;
  total : nat;
}.

(** The plugin's fields ([notificationStats], [currentProviderIndex],
    [storageSettings.values]) and what it shares with its surroundings: the
    store of options objects, addressed by reference, the calls the
    downstream notifier has received, and the time.  [provider_reads] records
    every index at which the provider list was read. *)
Record World : Type := mkWorld {
  notificationStats : Stats;
  currentProviderIndex : nat;
  values : StorageValues;
  provider_reads : list nat;
  heap : gmap nat NotifierOptions;
  sent : list Call;
  clock : nat;
}.

Definition set_stats (st : Stats) (w : World) : World :=
  mkWorld st (currentProviderIndex w) (values w) (provider_reads w)
    (heap w) (sent w) (clock w).

Definition set_cursor (i : nat) (w : World) : World :=
  mkWorld (notificationStats w) i (values w) (provider_reads w)
    (heap w) (sent w) (clock w).

Definition log_read (i : nat) (w : World) : World :=
  mkWorld (notificationStats w) (currentProviderIndex w) (values w)
    (provider_reads w ++ [i]) (heap w) (sent w) (clock w).

Definition set_heap (h : gmap nat NotifierOptions) (w : World) : World :=
  mkWorld (notificationStats w) (currentProviderIndex w) (values w)
    (provider_reads w) h (sent w) (clock w).

Definition log_call (c : Call) (w : World) : World :=
  mkWorld (notificationStats w) (currentProviderIndex w) (values w)
    (provider_reads w) (heap w) (sent w ++ [c]) (clock w).

Definition tick (w : World) : World :=
  mkWorld (notificationStats w) (currentProviderIndex w) (values w)
    (provider_reads w) (heap w) (sent w) (S (clock w)).

(** An awaited call to a collaborator. *)
Definition await {A : Type} (f : nat -> Result A) : M World A :=
  fun w => (f (clock w), tick w).

(** [selectProvider] (lines 401-411).  [providerIds[i]] is [undefined]
    past the end of the list, and the registry has no device for
    [undefined]. *)
Definition selectProvider `{Host} : M World (option Device) :=
  let* providerIds := gets (fun w => chatCompletions (values w)) in
  match providerIds with
  | None | Some [] => throw (Error "No LLM providers selected")
  | Some providerIds =>
      let* i := gets currentProviderIndex in
      let* _ := modify (log_read i) in
      let providerId := providerIds !! i in
      let* _ := modify (set_cursor ((i + 1) mod length providerIds)%nat) in
      ret (chain providerId getDeviceById)
  end.

(** [n] consecutive calls of [selectProvider], the oldest result first. *)
Fixpoint select_many `{Host} (n : nat) (w : World)
  : list (Result (option Device)) * World :=
  match n with
  | O => ([], w)
  | S n' =>
      let '(r, w1) := selectProvider w in
      let '(rs, w2) := select_many n' w1 in
      (r :: rs, w2)
  end.

Definition newline : string := String "010"%char EmptyString.

(** [createMessageTemplate] (lines 81-142). *)
Definition createMessageTemplate `{Host} (userPrompt : string)
  (imageUrls : list string) (metadata : Metadata) : MessageTemplate :=
  mkTemplate
    (basePrompt ++ newline ++ newline ++ userPrompt ++ newline ++ newline ++ schema)
    (Text ("Original notification metadata: " ++ JSON_stringify metadata)
       :: map ImageUrl imageUrls).

(** [`data:image/jpeg;base64,${b64}`] *)
Definition dataUrl `{Host} (buffer : Buffer) : string :=
  "data:image/jpeg;base64," ++ toString_base64 buffer.

(** The state of one run of [sendNotification]: the world and the
    parameter [options], which line 282 may reassign. *)
Record Frame : Type := mkFrame {
  world : World;
  options_var : option nat;
}.

Definition set_world (w : World) (f : Frame) : Frame := mkFrame w (options_var f).

Definition set_options_var (o : option nat) (f : Frame) : Frame := mkFrame (world f) o.

Definition in_world {A : Type} (c : M World A) : M Frame A := zoom world set_world c.

(** The object behind the current value of [options], if any. *)
Definition options_value (f : Frame) : option NotifierOptions :=
  chain (options_var f) (fun l => heap (world f) !! l).

(** [this.mixinDevice.sendNotification(title, options, media, icon)], with
    the current value of [options]. *)
Definition forward `{Host} (title : string) (media icon : option Media)
  : M Frame unit :=
  fun f =>
    let w := world f in
    let call := mkCall title (options_var f) (options_value f) media icon in
    (mixinDevice_sendNotification (sent w) call, set_world (tick (log_call call w)) f).

(** [!media] is false for a media object and for a non-empty string. *)
Definition truthy_media (media : option Media) : option Media :=
  match media with
  | Some (MediaString s) => if is_truthy (Some s) then media else None
  | Some (MediaObj mo) => media
  | None => None
  end.

(** [values.snapshotMode || 'cropped'] *)
Definition effective_snapshotMode (v : StorageValues) : string :=
  match truthy (snapshotMode v) with Some m => m | None => "cropped" end.

(** Automatic target width (lines 199-202). *)
Definition targetWidthFor (sw : Z) : Z :=
  if 3000 <? sw then 640
  else if 1500 <? sw then 512
  else if 800 <? sw then 384
  else sw.

(** Lines 183-219, the body of the [try] that looks for the full frame of
    this event; the result is the final value of [fullFrameUrl]. *)
Definition fetchFullFrame `{Host} (m : Media) : M Frame (option string) :=
  let* v := gets (fun f => values (world f)) in
  let snapshotMode := effective_snapshotMode v in
  if String.eqb snapshotMode "cropped" then ret None
  else
    let* options := gets options_value in
    let re := chain options recordedEvent in
    let data := chain re re_data in
    let detectionId :=
      or_else (chain data detectionId)
        (chain (chain (chain data detections) head) id) in
    let sourceId :=
      or_else
        (or_else (chain data sourceId) (chain options data_sourceId))
        (match m with MediaObj mo => mo_sourceId mo | MediaString _ => None end) in
    match truthy detectionId, truthy sourceId with
    | Some detectionId, Some sourceId =>
        match getDeviceById sourceId with
        | Some objDet =>
            if has_getDetectionInput objDet then
              let* fullMo :=
                in_world (await (fun t =>
                  getDetectionInput t objDet detectionId (chain re eventId))) in
              try_catch
                (let* fullBuf :=
                   in_world (await (fun t => convertMediaObjectToBuffer t fullMo)) in
                 let* dims := lift (getJpegDimensions fullBuf) in
                 let sw := fst dims in
                 let targetWidth := targetWidthFor sw in
                 let dw := Z.min targetWidth sw in
                 let* resized := lift (resizeJpegNearest fullBuf dw 60) in
                 ret (Some (dataUrl resized)))
                (fun resizeErr =>
                 let* buf :=
                   in_world (await (fun t => convertMediaObjectToBuffer t fullMo)) in
                 ret (Some (dataUrl buf)))
            else ret None
        | None => ret None
        end
    | _, _ => ret None
    end.

(** Lines 230-238. *)
Definition buildMetadata (v : StorageValues) (title : string)
  (options : option NotifierOptions) : Metadata :=
  if includeOriginalMessage v then
    mkMetadata (Some title) (chain options subtitle) (chain options body)
      (Some "Extract any 'Maybe: [name]' from the original text and use that name. Each field (title, subtitle, body) must contain DIFFERENT information - no repetition between fields.")
  else mkMetadata None None None None.

(** Lines 259-260: [Math.max(1, Number(values.llmTimeoutMs ?? 90)) * 1000]. *)
Definition llmTimeout (v : StorageValues) : number :=
  let timeoutSec := default 90%float (llmTimeoutMs v) in
  times (Math_max 1%float timeoutSec) 1000%float.

(** [options ||= {}] (line 282): a missing [options] becomes a new empty
    object. *)
Definition options_or_assign_empty : M Frame unit :=
  fun f =>
    match options_var f with
    | Some _ => (inr tt, f)
    | None =>
        let w := world f in
        let l := fresh (dom (heap w)) in
        (inr tt, mkFrame (set_heap (<[l := empty_options]> (heap w)) w) (Some l))
    end.

(** [options.body = body; options.subtitle = subtitle] (lines 283-284):
    the object [options] refers to is updated in place. *)
Definition options_assign (newBody newSubtitle : string) : M Frame unit :=
  fun f =>
    match options_var f with
    | None => (inl (Error "Cannot set properties of undefined"), f)
    | Some l =>
        let w := world f in
        let o := default empty_options (heap w !! l) in
        let o' := mkOptions (Some newSubtitle) (Some newBody)
                    (recordedEvent o) (data_sourceId o) in
        (inr tt, set_world (set_heap (<[l := o']> (heap w)) w) f)
    end.

(** Lines 256-276: provider selection, the call under its deadline,
    parsing and validation; the result is [(newTitle, subtitle, body)]. *)
Definition requestEnhancement `{Host} (messageTemplate : MessageTemplate)
  : M Frame (string * string * string) :=
  let* device := in_world selectProvider in
  let* v := gets (fun f => values (world f)) in
  let llmTimeout := llmTimeout v in
  let* data :=
    match device with
    | Some device =>
        in_world (await (fun t =>
          withTimeout (getChatCompletion t device messageTemplate llmTimeout)
            llmTimeout (Some "LLM request")))
    | None => throw (Error "Cannot read properties of undefined")
    end in
  let* content :=
    match choices data with
    | c :: _ => ret c
    | [] => throw (Error "Cannot read properties of undefined")
    end in
  match truthy content with
  | None => throw (Error "Empty response from LLM")
  | Some content =>
      let* json := lift (JSON_parse content) in
      match json with
      | JNull => throw (Error "Cannot destructure 'json' as it is null")
      | _ =>
          match prop json "title", prop json "subtitle", prop json "body" with
          | Some (JString newTitle), Some (JString subtitle), Some (JString body) =>
              ret (newTitle, subtitle, body)
          | _, _, _ => throw (Error "Invalid response format from LLM")
          end
      end
  end.

(** Lines 255-291: the [try] around [requestEnhancement], the update of
    [options] and the forward of the enhanced notification, and its
    [catch], which forwards with the original title. *)
Definition enhance `{Host} (title : string) (media icon : option Media)
  (messageTemplate : MessageTemplate) : M Frame unit :=
  try_catch
    (let* response := requestEnhancement messageTemplate in
     let '(newTitle, subtitle, body) := response in
     let* _ := options_or_assign_empty in
     let* _ := options_assign body subtitle in
     forward newTitle media icon)
    (fun e => forward title media icon).

Definition bump_total (st : Stats) : Stats :=
  mkStats (withSnapshot st) (withoutSnapshot st) (S (total st)).

Definition bump_withoutSnapshot (st : Stats) : Stats :=
  mkStats (withSnapshot st) (S (withoutSnapshot st)) (total st).

Definition bump_withSnapshot (st : Stats) : Stats :=
  mkStats (S (withSnapshot st)) (withoutSnapshot st) (total st).

Definition update_stats (g : Stats -> Stats) : M Frame unit :=
  modify (fun f => set_world (set_stats (g (notificationStats (world f))) (world f)) f).

(** [sendNotification] (lines 152-292) from the first statement on.  The
    console output and the values computed only for it ([timestamp],
    [imageSizeKB], the response time) are left out. *)
Definition sendNotification_body `{Host} (title : string)
  (media icon : option Media) : M Frame unit :=
  let* _ := update_stats bump_total in
  let* v := gets (fun f => values (world f)) in
  match truthy_media media, enabled v with
  | Some m, true =>
      let* _ := update_stats bump_withSnapshot in
      let* imageUrl :=
        match m with
        | MediaString s => ret s
        | MediaObj mo =>
            let* buffer :=
              in_world (await (fun t => convertMediaObjectToBuffer t mo)) in
            ret (dataUrl buffer)
        end in
      let* fullFrameUrl := try_catch (fetchFullFrame m) (fun e => ret None) in
      let* options := gets options_value in
      let metadata := buildMetadata v title options in
      let snapshotMode := effective_snapshotMode v in
      let imageUrls := buildImageList snapshotMode fullFrameUrl (Some imageUrl) in
      match imageUrls with
      | [] => forward title media icon
      | _ :: _ =>
          let messageTemplate :=
            createMessageTemplate (userPrompt v) imageUrls metadata in
          enhance title media icon messageTemplate
      end
  | _, _ =>
      let* _ := update_stats bump_withoutSnapshot in
      forward title media icon
  end.

(** One inbound call: the outcome seen by the caller and the world after. *)
Definition sendNotification `{Host} (title : string) (options : option nat)
  (media icon : option Media) (w : World) : Result unit * World :=
  let '(r, f) := sendNotification_body title media icon (mkFrame w options) in
  (r, world f).

(** One inbound call and a sequence of them, one after the other. *)
Record Inbound : Type := mkInbound {
  in_title : string;
  in_options : option nat;
  in_media : option Media;
  in_icon : option Media;
}.

Fixpoint run `{Host} (calls : list Inbound) (w : World) : World :=
  match calls with
  | [] => w
  | c :: rest =>
      run rest
        (sendNotification (in_title c) (in_options c) (in_media c) (in_icon c) w).2
  end.

(** What a caller and the downstream notifier can see of a frame: the
    calls received, the options objects, the counters, the settings and the
    value of [options].  The cursor and the time are not part of it. *)
Definition same_view (f f' : Frame) : Prop :=
  sent (world f') = sent (world f) /\
  heap (world f') = heap (world f) /\
  notificationStats (world f') = notificationStats (world f) /\
  values (world f') = values (world f) /\
  options_var f' = options_var f.

(** A computation that changes nothing of that view, however it ends. *)
Definition quiet {A : Type} (c : M Frame A) : Prop :=
  forall f : Frame, same_view f (c f).2.

(** The counters after an event without and with a snapshot. *)
Definition count_skipped (st : Stats) : Stats := bump_withoutSnapshot (bump_total st).

Definition count_enhanced (st : Stats) : Stats := bump_withSnapshot (bump_total st).

(** [counted g f f']: [f'] differs from [f] in what a caller can see only
    by the counters, which went through [g]. *)
Definition counted (g : Stats -> Stats) (f f' : Frame) : Prop :=
  sent (world f') = sent (world f) /\
  heap (world f') = heap (world f) /\
  notificationStats (world f') = g (notificationStats (world f)) /\
  values (world f') = values (world f) /\
  options_var f' = options_var f.

(** The object written by lines 282-284 and where it is written: at the
    reference passed by the caller, or at a new one when none was passed. *)
Definition enhanced_options (newSubtitle newBody : string)
  (old : option NotifierOptions) : NotifierOptions :=
  let o := default empty_options old in
  mkOptions (Some newSubtitle) (Some newBody) (recordedEvent o) (data_sourceId o).

Definition options_target (h : gmap nat NotifierOptions) (options : option nat) : nat :=
  default (fresh (dom h)) options.

(** [options_updated s b f f']: [f'] is [f] after lines 282-284. *)
Definition options_updated (newSubtitle newBody : string) (f f' : Frame) : Prop :=
  let l := options_target (heap (world f)) (options_var f) in
  sent (world f') = sent (world f) /\
  notificationStats (world f') = notificationStats (world f) /\
  values (world f') = values (world f) /\
  options_var f' = Some l /\
  heap (world f') =
    <[l := enhanced_options newSubtitle newBody (heap (world f) !! l)]> (heap (world f)).

(** The four ways a run from frame [f] can reach outcome [r] and frame
    [f']: the skip; a failed conversion of the attached media object; the
    forward of the original after an empty snapshot list or a failed
    enhancement; the forward of a validated response, alone or followed by
    a forward with the original title when it throws. *)
Definition paths `{Host} (title : string) (media icon : option Media)
  (f : Frame) (r : Result unit) (f' : Frame) : Prop :=
  ((truthy_media media = None \/ enabled (values (world f)) = false) /\
   exists f1,
     counted count_skipped f f1 /\ (r, f') = forward title media icon f1)
  \/
  (enabled (values (world f)) = true /\
   exists mo e,
     truthy_media media = Some (MediaObj mo) /\
     convertMediaObjectToBuffer (clock (world f)) mo = inl e /\
     r = inl e /\ counted count_enhanced f f')
  \/
  (enabled (values (world f)) = true /\ is_Some (truthy_media media) /\
   exists f1,
     counted count_enhanced f f1 /\ (r, f') = forward title media icon f1)
  \/
  (enabled (values (world f)) = true /\ is_Some (truthy_media media) /\
   exists newTitle newSubtitle newBody f1 f2,
     counted count_enhanced f f1 /\
     options_updated newSubtitle newBody f1 f2 /\
     ((forward newTitle media icon f2 = (inr tt, f') /\ r = inr tt)
      \/
      (exists e f3,
         forward newTitle media icon f2 = (inl e, f3) /\
         (r, f') = forward title media icon f3))).

(** What one run shows to its surroundings, as a relation between the
    frame before, the outcome and the frame after: the counters moved one
    step, the settings are kept, and the calls [cs] received by the
    downstream notifier and the options objects are one of
    - nothing mutated, no call: the conversion of the attached media object
      threw [e], which is the outcome;
    - nothing mutated, one call with the original arguments, whose outcome
      is the outcome of the run;
    - the object [options] refers to (a new one when [options] was missing)
      overwritten with the response, and one call with the new title that
      did not throw;
    - the same, but the call threw and a second call with the original title
      followed, whose outcome is the outcome of the run. *)
Definition effects `{Host} (title : string) (media icon : option Media)
  (f : Frame) (r : Result unit) (f' : Frame) : Prop :=
  values (world f') = values (world f) /\
  (notificationStats (world f') = count_skipped (notificationStats (world f)) \/
   notificationStats (world f') = count_enhanced (notificationStats (world f))) /\
  exists cs : list Call,
    sent (world f') = (sent (world f) ++ cs)%list /\
    let c0 := mkCall title (options_var f) (options_value f) media icon in
    let l := options_target (heap (world f)) (options_var f) in
    ((heap (world f') = heap (world f) /\ cs = [] /\
      exists mo e,
        truthy_media media = Some (MediaObj mo) /\
        enabled (values (world f)) = true /\
        convertMediaObjectToBuffer (clock (world f)) mo = inl e /\ r = inl e)
     \/
     (heap (world f') = heap (world f) /\ cs = [c0] /\
      r = mixinDevice_sendNotification (sent (world f)) c0)
     \/
     (exists newTitle newSubtitle newBody,
        let o := enhanced_options newSubtitle newBody (heap (world f) !! l) in
        let c1 := mkCall newTitle (Some l) (Some o) media icon in
        let c2 := mkCall title (Some l) (Some o) media icon in
        heap (world f') = <[l := o]> (heap (world f)) /\
        enabled (values (world f)) = true /\ is_Some (truthy_media media) /\
        ((cs = [c1] /\
          mixinDevice_sendNotification (sent (world f)) c1 = inr tt /\ r = inr tt)
         \/
         (cs = [c1; c2] /\
          (exists e, mixinDevice_sendNotification (sent (world f)) c1 = inl e) /\
          r = mixinDevice_sendNotification (sent (world f) ++ [c1]) c2)))).

(** The call [forward title media icon] makes in frame [f]. *)
Definition call_of (title : string) (media icon : option Media) (f : Frame) : Call :=
  mkCall title (options_var f) (options_value f) media icon.

End Notifier.

Import Notifier.

(** ** Concrete surroundings for the examples *)

Module Samples.

Definition richard : Json :=
  JObject [("title", JString "Richard at front door");
           ("subtitle", JString "Person - Front door");
           ("body", JString "Walking up holding a package.")].

(** A stand-in for [JSON.parse] that knows two texts. *)
Definition parse_sample (s : string) : Result Json :=
  if String.eqb s "richard" then inr richard
  else if String.eqb s "null" then inr JNull
  else inl (Error "Unexpected token").

(** A host built from the behaviour of the media manager, of the chat
    provider and of the downstream notifier. *)
Definition host_with
  (convert : nat -> MediaObject -> Result Buffer)
  (chat : nat -> Settlement ChatCompletionData)
  (downstream : list Call -> Call -> Result unit) : Host := {|
  host_codec := raw_codec;
  convertMediaObjectToBuffer := convert;
  toString_base64 := fun _ => "QUJD";
  getDeviceById := fun i => Some (mkDevice i);
  has_getDetectionInput := fun _ => true;
  getDetectionInput := fun _ _ _ _ => inr (mkMediaObject 7 None);
  getChatCompletion := fun t _ _ _ => chat t;
  JSON_parse := parse_sample;
  JSON_stringify := fun _ => "{}";
  mixinDevice_sendNotification := downstream;
  basePrompt := "Analyze the security camera image and generate a notification.";
  schema := "CRITICAL: The response must be in JSON format.";
|}.

Definition convert_ok : nat -> MediaObject -> Result Buffer :=
  fun _ _ => inr sample_4x2.

Definition convert_fails : nat -> MediaObject -> Result Buffer :=
  fun _ _ => inl (Error "conversion failed").

Definition chat_richard : nat -> Settlement ChatCompletionData :=
  fun _ => Fulfilled (mkChat [Some "richard"]).

(** A provider that has not answered when the timer fires. *)
Definition chat_timeout : nat -> Settlement ChatCompletionData :=
  fun _ => StillPending.

Definition downstream_ok : list Call -> Call -> Result unit :=
  fun _ _ => inr tt.

(** A downstream notifier whose first delivery fails. *)
Definition downstream_first_fails : list Call -> Call -> Result unit :=
  fun received _ =>
    match received with
    | [] => inl (Error "delivery failed")
    | _ :: _ => inr tt
    end.

Definition values_default : StorageValues :=
  mkValues true None None (Some ["llm-a"; "llm-b"; "llm-c"]) "STYLE" true.

Definition motion : NotifierOptions :=
  mkOptions (Some "Front door") (Some "Maybe: Richard") None None.

(** A world just after start-up in which the caller's options object sits
    at reference 0. *)
Definition world0 : World :=
  mkWorld (mkStats 0 0 0) 0 values_default [] {[ 0%nat := motion ]} [] 0.

Definition snapshot : Media := MediaObj (mkMediaObject 1 None).

End Samples.

(** ** Further definitions for the resizer *)

(** The same codec on a machine whose fresh memory holds [garbage]. *)
Definition with_garbage (garbage : nat -> byte) (c : Codec) : Codec := {|
  jpeg_decode := @jpeg_decode c;
  jpeg_encode := @jpeg_encode c;
  allocUnsafe_garbage := garbage;
|}.

(** ** Further definitions for the orchestration *)

(** The provider pool as a frame shows it: the cursor, the log of index
    reads and the settings. *)
Definition same_pool (f f' : Frame) : Prop :=
  currentProviderIndex (world f') = currentProviderIndex (world f) /\
  provider_reads (world f') = provider_reads (world f) /\
  values (world f') = values (world f).

(** A computation that leaves the pool alone, however it ends. *)
Definition idle {A : Type} (c : M Frame A) : Prop :=
  forall f : Frame, same_pool f (c f).2.

(** The pool is as before, or one provider turn was taken: the list was
    read once, at the cursor, and the cursor moved on by one. *)
Definition pool_step (f f' : Frame) : Prop :=
  same_pool f f' \/
  exists ids : list string,
    chatCompletions (values (world f)) = Some ids /\ ids <> [] /\
    currentProviderIndex (world f') =
      ((currentProviderIndex (world f) + 1) mod length ids)%nat /\
    provider_reads (world f') =
      (provider_reads (world f) ++ [currentProviderIndex (world f)])%list /\
    values (world f') = values (world f).

Definition one_turn {A : Type} (c : M Frame A) : Prop :=
  forall f : Frame, pool_step f (c f).2.

(** The detection and the source named by the event (lines 185-190). *)
Definition event_detectionId (options : option NotifierOptions) : option string :=
  let re := chain options recordedEvent in
  let data := chain re re_data in
  or_else (chain data detectionId)
    (chain (chain (chain data detections) head) id).

Definition event_sourceId (options : option NotifierOptions) (m : Media)
  : option string :=
  let re := chain options recordedEvent in
  let data := chain re re_data in
  or_else
    (or_else (chain data sourceId) (chain options data_sourceId))
    (match m with MediaObj mo => mo_sourceId mo | MediaString _ => None end).

Definition event_eventId (options : option NotifierOptions) : option string :=
  chain (chain options recordedEvent) eventId.

(** A frame after [n] awaited calls. *)
Fixpoint ticks (n : nat) (w : World) : World :=
  match n with
  | O => w
  | S n' => tick (ticks n' w)
  end.

(** The device asked for the full frame (lines 191-193): the one the
    registry has for the source of the event, if it can give detection
    inputs. *)
Definition detector `{Host} (options : option NotifierOptions) (m : Media)
  : option Device :=
  match truthy (event_sourceId options m) with
  | Some sourceId =>
      match getDeviceById sourceId with
      | Some objDet => if has_getDetectionInput objDet then Some objDet else None
      | None => None
      end
  | None => None
  end.

(** The request built when the list of images is the event's image alone
    (lines 230-253). *)
Definition cropped_template `{Host} (w : World) (title url : string)
  (options : option nat) : MessageTemplate :=
  createMessageTemplate (userPrompt (values w)) [url]
    (buildMetadata (values w) title (chain options (fun l => heap w !! l))).

(** The frame in which the enhancement of an event starts: the event is
    counted, nothing else has happened. *)
Definition enhancing_frame (w : World) (options : option nat) : Frame :=
  mkFrame (set_stats (count_enhanced (notificationStats w)) w) options.

(** Surroundings for the examples of the full frame: an event that names
    its detection and its source, the mode 'both', and a host whose JPEG
    decoder rejects every frame. *)
Definition detected : NotifierOptions :=
  mkOptions (Some "Front door") (Some "Person")
    (Some (mkRecordedEvent
             (Some (mkEventData (Some "det-1") None (Some "camera-1")))
             (Some "event-1")))
    None.

Definition world_both : World :=
  mkWorld (mkStats 0 0 0) 0
    (mkValues true (Some "both") None (Some ["llm-a"; "llm-b"; "llm-c"]) "STYLE" true)
    [] {[ 0%nat := detected ]} [] 0.

Definition host_undecodable : Host := {|
  host_codec := rejecting_codec;
  convertMediaObjectToBuffer := Samples.convert_ok;
  toString_base64 := fun _ => "QUJD";
  getDeviceById := fun i => Some (mkDevice i);
  has_getDetectionInput := fun _ => true;
  getDetectionInput := fun _ _ _ _ => inr (mkMediaObject 7 None);
  getChatCompletion := fun t _ _ _ => Samples.chat_richard t;
  JSON_parse := Samples.parse_sample;
  JSON_stringify := fun _ => "{}";
  mixinDevice_sendNotification := Samples.downstream_ok;
  basePrompt := "Analyze the security camera image and generate a notification.";
  schema := "CRITICAL: The response must be in JSON format.";
|}.

(** Hosts and an inbound image reference for the examples. *)
Definition happy_host : Host :=
  Samples.host_with Samples.convert_ok Samples.chat_richard Samples.downstream_ok.

Definition late_host : Host :=
  Samples.host_with Samples.convert_ok Samples.chat_timeout Samples.downstream_ok.

Definition crop_url : string := "http://camera/crop.jpg".

(** A world without any provider configured. *)
Definition world_no_provider : World :=
  mkWorld (mkStats 0 0 0) 0 (mkValues true None None None "STYLE" true)
    [] {[ 0%nat := Samples.motion ]} [] 0.

(** ** Further definitions for the run as a whole *)

(** The frame in which line 157 has counted the event. *)
Definition counting_frame (w : World) (options : option nat) : Frame :=
  mkFrame (set_stats (bump_total (notificationStats w)) w) options.

(** Lines 166-253 of [sendNotification], for a [media] that passed the
    guard of line 160: the event is counted as one with a snapshot, its
    image and the full frame are fetched, and the list of images and the
    request are built.  The result is that list and that request. *)
Definition prepare `{Host} (title : string) (m : Media)
  : M Frame (list string * MessageTemplate) :=
  let* v := gets (fun f => values (world f)) in
  let* _ := update_stats bump_withSnapshot in
  let* imageUrl :=
    match m with
    | MediaString s => ret s
    | MediaObj mo =>
        let* buffer :=
          in_world (await (fun t => convertMediaObjectToBuffer t mo)) in
        ret (dataUrl buffer)
    end in
  let* fullFrameUrl := try_catch (fetchFullFrame m) (fun e => ret None) in
  let* options := gets options_value in
  let metadata := buildMetadata v title options in
  let snapshotMode := effective_snapshotMode v in
  let imageUrls := buildImageList snapshotMode fullFrameUrl (Some imageUrl) in
  ret (imageUrls, createMessageTemplate (userPrompt v) imageUrls metadata).

(** [sendNotification_body] with [alt] in the place of the statements of
    lines 245-246, which run when the list of images is empty; every other
    line is as in [sendNotification_body]. *)
Definition sendNotification_body_with `{Host} (alt : M Frame unit)
  (title : string) (media icon : option Media) : M Frame unit :=
  let* _ := update_stats bump_total in
  let* v := gets (fun f => values (world f)) in
  match truthy_media media, enabled v with
  | Some m, true =>
      let* _ := update_stats bump_withSnapshot in
      let* imageUrl :=
        match m with
        | MediaString s => ret s
        | MediaObj mo =>
            let* buffer :=
              in_world (await (fun t => convertMediaObjectToBuffer t mo)) in
            ret (dataUrl buffer)
        end in
      let* fullFrameUrl := try_catch (fetchFullFrame m) (fun e => ret None) in
      let* options := gets options_value in
      let metadata := buildMetadata v title options in
      let snapshotMode := effective_snapshotMode v in
      let imageUrls := buildImageList snapshotMode fullFrameUrl (Some imageUrl) in
      match imageUrls with
      | [] => alt
      | _ :: _ =>
          let messageTemplate :=
            createMessageTemplate (userPrompt v) imageUrls metadata in
          enhance title media icon messageTemplate
      end
  | _, _ =>
      let* _ := update_stats bump_withoutSnapshot in
      forward title media icon
  end.

(** ** Order of the settings page (main.ts, lines 367-395) *)

Module SettingsOrder.

Section GetSettings.

(** A setting is an object of the settings store, known by its reference;
    [key r] is its [key] property.  An entry of the list may be missing
    ([None]). *)
Variable key : nat -> option string.

(** Body of the first loop (lines 370-373): [if (s?.key) byKey.set(s.key, s)]. *)
Definition byKey_set (byKey : gmap string nat) (s : option nat)
  : gmap string nat :=
  match s with
  | Some r =>
      match truthy (key r) with
      | Some k => <[k := r]> byKey
      | None => byKey
      end
  | None => byKey
  end.

Definition orderedKeys : list string :=
  ["chatCompletions"; "userPrompt";
   "enabled"; "llmTimeoutMs"; "snapshotMode"; "includeOriginalMessage"].

(** Body of the second loop (lines 385-388). *)
Definition push_found (byKey : gmap string nat) (ordered : list (option nat))
  (k : string) : list (option nat) :=
  match byKey !! k with
  | Some s => push ordered (Some s)
  | None => ordered
  end.

(** Body of the third loop (lines 390-393): [includes] compares
    references. *)
Definition push_leftover (ordered : list (option nat)) (s : option nat)
  : list (option nat) :=
  if bool_decide (s ∈ ordered) then ordered else push ordered s.

(** [getSettings], applied to what [storageSettings.getSettings()]
    returned. *)
Definition getSettings (settings : list (option nat)) : list (option nat) :=
  let byKey := foldl byKey_set ∅ settings in
  let ordered := foldl (push_found byKey) [] orderedKeys in
  foldl push_leftover ordered settings.

(** The last entry of [settings] whose key is [k], if there is one. *)
Definition last_with_key (settings : list (option nat)) (k : string)
  : option (option nat) :=
  last (filter (fun s => truthy (chain s key) = Some k) settings).

End GetSettings.

(** Seven settings for the examples: the six of the plugin in storage
    order and one of another mixin in front. *)
Definition sample_key (r : nat) : option string :=
  match r with
  | 0%nat => Some "other"
  | 1%nat => Some "enabled"
  | 2%nat => Some "snapshotMode"
  | 3%nat => Some "llmTimeoutMs"
  | 4%nat => Some "chatCompletions"
  | 5%nat => Some "userPrompt"
  | 6%nat => Some "includeOriginalMessage"
  | _ => None
  end.

Definition sample_settings : list (option nat) :=
  [Some 0; Some 1; Some 2; Some 3; Some 4; Some 5; Some 6]%nat.

End SettingsOrder.

(** * Properties *)

(** ** Snapshot list *)

Example buildImageList_both :
  buildImageList "both" (Some "F") (Some "C") = ["F"; "C"].
Proof. reflexivity. Qed.

Example buildImageList_full_missing :
  buildImageList "full" None (Some "C") = ["C"].
Proof. reflexivity. Qed.

(** C3, as stated, fails: in mode 'cropped' with the cropped image missing
    and a full image present, the list is the full image, not the empty
    list. *)
Lemma buildImageList_cropped_falls_back_to_full :
  truthy None = None /\
  buildImageList "cropped" (Some "F") None = ["F"] /\
  buildImageList "cropped" (Some "F") None <> [].
Proof. repeat split; discriminate. Qed.

(** C3 (amended): [buildImageList] is the mode table with a fallback in
    every mode.  With both images present, 'both' gives [full; cropped],
    'full' gives [full] and any other mode ('cropped') gives [cropped]; with
    one image present that image is returned whatever the mode; with none
    the list is empty.  An image is present when it is a non-empty string. *)
Theorem buildImageList_table (mode : string) (full cropped : option string) :
  buildImageList mode full cropped =
  match truthy full, truthy cropped with
  | Some f, Some c =>
      if String.eqb mode "both" then [f; c]
      else if String.eqb mode "full" then [f]
      else [c]
  | None, Some c => [c]
  | Some f, None => [f]
  | None, None => []
  end.
Proof.
  unfold buildImageList, push.
  destruct (String.eqb mode "both"), (String.eqb mode "full"),
    (truthy full), (truthy cropped); reflexivity.
Qed.

(** ** Resizer *)

Example resize_sample :
  @resizeJpegNearest raw_codec sample_4x2 2 60 =
  inr [Byte.x10; Byte.x11; Byte.x12; Byte.xff; Byte.x30; Byte.x31; Byte.x32; Byte.xff].
Proof. reflexivity. Qed.

Lemma round_div_nearest (a b : Z) :
  0 < b -> 2 * a - b < 2 * b * round_div a b <= 2 * a + b.
Proof.
  intros Hb. unfold round_div.
  pose proof (Z.mul_div_le (2 * a + b) (2 * b)).
  pose proof (Z.mul_succ_div_gt (2 * a + b) (2 * b)). lia.
Qed.

Lemma shl_2_small (k : Z) : 0 <= k -> 4 * k < 2 ^ 31 -> shl k 2 = 4 * k.
Proof.
  intros H0 Hk. unfold shl, toInt32.
  rewrite (Z.mod_small (k + 2 ^ 31)) by lia.
  rewrite Z.shiftl_mul_pow2 by lia.
  replace (k + 2 ^ 31 - 2 ^ 31) with k by lia.
  rewrite Z.mod_small by lia. lia.
Qed.

Lemma length_store (dst : list byte) (i : Z) (v : option byte) :
  length (store dst i v) = length dst.
Proof. unfold store. destruct (i <? 0); [done | apply length_insert]. Qed.

Lemma load_store_eq (dst : list byte) (i : Z) (v : option byte) :
  0 <= i < Z.of_nat (length dst) ->
  load (store dst i v) i = Some (default Byte.x00 v).
Proof.
  intros Hi. unfold load, store.
  destruct (Z.ltb_spec i 0); [lia|].
  apply list_lookup_insert_eq. lia.
Qed.

Lemma load_store_ne (dst : list byte) (i j : Z) (v : option byte) :
  i <> j -> load (store dst i v) j = load dst j.
Proof.
  intros Hij. unfold load, store.
  destruct (Z.ltb_spec j 0); [done|].
  destruct (Z.ltb_spec i 0); [done|].
  apply list_lookup_insert_ne. lia.
Qed.

Lemma load_Some (src : list byte) (i : Z) :
  0 <= i < Z.of_nat (length src) -> exists b, load src i = Some b.
Proof.
  intros Hi. unfold load. destruct (Z.ltb_spec i 0); [lia|].
  apply lookup_lt_is_Some_2. lia.
Qed.

Section Resize.

Variables (src : list byte) (sw sh dw dh : Z).

Hypothesis Hsw : 0 < sw.
Hypothesis Hsh : 0 < sh.
Hypothesis Hdw : 0 <= dw.
Hypothesis Hdh : 0 < dh.
Hypothesis Hsrc : 4 * sw * sh < 2 ^ 31.
Hypothesis Hdst : 4 * dw * dh < 2 ^ 31.

Lemma source_index_bounds (x y : Z) :
  0 <= x < dw -> 0 <= y < dh ->
  0 <= floor_div (x * sw) dw < sw /\ 0 <= floor_div (y * sh) dh < sh.
Proof.
  intros Hx Hy. unfold floor_div. split; split.
  - apply Z.div_pos; nia.
  - apply Z.div_lt_upper_bound; nia.
  - apply Z.div_pos; nia.
  - apply Z.div_lt_upper_bound; nia.
Qed.

Lemma resize_pixel_step (len : nat) (out : list byte) (x y : Z) :
  Z.of_nat len = 4 * dw * dh ->
  0 <= x < dw -> 0 <= y < dh ->
  done_upto src sw sh dw dh len (y * dw + x) out ->
  done_upto src sw sh dw dh len (y * dw + x + 1)
    (resize_pixel src sw dw (floor_div (y * sh) dh) y out x).
Proof.
  intros Hlen Hx Hy [Hl Hdone].
  destruct (source_index_bounds x y Hx Hy) as [Hsx Hsy].
  unfold resize_pixel.
  rewrite (shl_2_small (y * dw + x)) by nia.
  rewrite (shl_2_small (floor_div (y * sh) dh * sw + floor_div (x * sw) dw)) by nia.
  set (si := 4 * (floor_div (y * sh) dh * sw + floor_div (x * sw) dw)).
  set (di := 4 * (y * dw + x)).
  assert (Hdi : 0 <= di /\ di + 3 < Z.of_nat (length out)) by (subst di; nia).
  split; [by rewrite !length_store|].
  intros x' y' c Hy' Hx' Hlt Hc.
  destruct (Z.eq_dec (y' * dw + x') (y * dw + x)) as [Heq|Hne].
  - assert (y' = y) by nia. assert (x' = x) by nia. subst x' y'.
    fold di. unfold sampled. fold si.
    assert (c = 0 \/ c = 1 \/ c = 2 \/ c = 3) as [-> | [-> | [-> | ->]]] by lia; simpl.
    + rewrite !load_store_ne by lia.
      rewrite !Z.add_0_r. by rewrite load_store_eq by lia.
    + rewrite !load_store_ne by lia.
      by rewrite load_store_eq by (rewrite ?length_store; lia).
    + rewrite !load_store_ne by lia.
      by rewrite load_store_eq by (rewrite ?length_store; lia).
    + by rewrite load_store_eq by (rewrite ?length_store; lia).
  - rewrite !load_store_ne by (subst di; nia).
    apply Hdone; [done | done | nia | done].
Qed.

Lemma resize_row_prefix (len : nat) (out : list byte) (y : Z) (k : nat) :
  Z.of_nat len = 4 * dw * dh ->
  0 <= y < dh -> Z.of_nat k <= dw ->
  done_upto src sw sh dw dh len (y * dw) out ->
  done_upto src sw sh dw dh len (y * dw + Z.of_nat k)
    (foldl (resize_pixel src sw dw (floor_div (y * sh) dh) y) out
       (map Z.of_nat (seq 0 k))).
Proof.
  intros Hlen Hy. induction k as [|k IH]; intros Hk Hout.
  - simpl. by rewrite Z.add_0_r.
  - rewrite seq_S, map_app, foldl_app. simpl.
    replace (y * dw + Z.of_nat (S k)) with (y * dw + Z.of_nat k + 1) by lia.
    apply resize_pixel_step; [done | lia | done |].
    apply IH; [lia | done].
Qed.

Lemma resize_row_step (len : nat) (out : list byte) (y : Z) :
  Z.of_nat len = 4 * dw * dh ->
  0 <= y < dh ->
  done_upto src sw sh dw dh len (y * dw) out ->
  done_upto src sw sh dw dh len ((y + 1) * dw) (resize_row src sw sh dw dh out y).
Proof.
  intros Hlen Hy Hout. unfold resize_row, upto.
  replace ((y + 1) * dw) with (y * dw + Z.of_nat (Z.to_nat dw)) by lia.
  apply resize_row_prefix; [done | done | lia | done].
Qed.

Lemma resize_rows_prefix (len : nat) (dst : list byte) (k : nat) :
  Z.of_nat len = 4 * dw * dh ->
  length dst = len ->
  Z.of_nat k <= dh ->
  done_upto src sw sh dw dh len (Z.of_nat k * dw)
    (foldl (resize_row src sw sh dw dh) dst (map Z.of_nat (seq 0 k))).
Proof.
  intros Hlen Hdstlen. induction k as [|k IH]; intros Hk.
  - simpl. split; [done|]. intros x y c ????. nia.
  - rewrite seq_S, map_app, foldl_app. simpl.
    replace (Z.of_nat (S k) * dw) with ((Z.of_nat k + 1) * dw) by lia.
    apply resize_row_step; [done | lia |]. apply IH. lia.
Qed.

Lemma resize_loops_done (dst : list byte) :
  Z.of_nat (length dst) = 4 * dw * dh ->
  done_upto src sw sh dw dh (length dst) (dh * dw) (resize_loops src sw sh dw dh dst).
Proof.
  intros Hlen. unfold resize_loops, upto.
  replace (dh * dw) with (Z.of_nat (Z.to_nat dh) * dw) by lia.
  apply resize_rows_prefix; [done | done | lia].
Qed.

End Resize.

Section ImageCodecFacts.

Context `{Codec}.

(** C5 (amended): when the input decodes, [resizeJpegNearest] returns it
    unchanged if the target width is at least the source width, or if the
    decoded width or height is zero; when the decoder throws, the same
    error leaves [resizeJpegNearest]. *)
Theorem resizeJpegNearest_identity (input : Buffer) (targetWidth quality : Z) :
  (forall img : RawImage,
     jpeg_decode input = inr img ->
     width img <= targetWidth \/ width img = 0 \/ height img = 0 ->
     resizeJpegNearest input targetWidth quality = inr input) /\
  (forall e : Exn,
     jpeg_decode input = inl e ->
     resizeJpegNearest input targetWidth quality = inl e).
Proof.
  unfold resizeJpegNearest. split.
  - intros img -> Hcase.
    destruct (Z.eqb_spec (width img) 0) as [|Hw]; [done|].
    destruct (Z.eqb_spec (height img) 0) as [|Hh]; [done|]. simpl.
    destruct (Z.eqb_spec (Z.min targetWidth (width img)) (width img)); [done|lia].
  - by intros e ->.
Qed.

(** C8: for a decoded image of width [sw] and height [sh] (within the
    range where [<< 2] does not wrap) and a target width [w < sw], the image
    handed to the encoder has width [w], height
    [max 1 (round (sh * w / sw))], four bytes per pixel, and its pixel
    [(x, y)] has the red, green and blue bytes of the source pixel
    [(floor (x * sw / w), floor (y * sh / dh))] and alpha 255. *)
Theorem resizeJpegNearest_downscale (input : Buffer) (w quality : Z)
  (img : RawImage) :
  jpeg_decode input = inr img ->
  0 < height img ->
  0 <= w < width img ->
  4 * width img * height img < 2 ^ 31 ->
  Z.of_nat (length (data img)) = 4 * width img * height img ->
  let sw := width img in
  let sh := height img in
  let dh := Z.max 1 (round_div (sh * w) sw) in
  exists out : RawImage,
    resizeJpegNearest input w quality = jpeg_encode out quality /\
    width out = w /\
    height out = dh /\
    Z.of_nat (length (data out)) = 4 * w * dh /\
    forall x y : Z,
      0 <= x < w -> 0 <= y < dh ->
      let sx := floor_div (x * sw) w in
      let sy := floor_div (y * sh) dh in
      (0 <= sx < sw /\ 0 <= sy < sh) /\
      load (data out) (4 * (y * w + x)) = load (data img) (4 * (sy * sw + sx)) /\
      load (data out) (4 * (y * w + x) + 1) = load (data img) (4 * (sy * sw + sx) + 1) /\
      load (data out) (4 * (y * w + x) + 2) = load (data img) (4 * (sy * sw + sx) + 2) /\
      load (data out) (4 * (y * w + x) + 3) = Some Byte.xff.
Proof.
  intros Hdec Hsh Hw Hsrc Hlen sw sh dh.
  assert (Hdh : 1 <= dh <= sh).
  { subst dh. pose proof (round_div_nearest (sh * w) sw ltac:(lia)).
    assert (round_div (sh * w) sw <= sh) by (subst sw sh; nia). lia. }
  assert (Hdst : 4 * w * dh < 2 ^ 31) by (subst sw sh; nia).
  unfold resizeJpegNearest. rewrite Hdec. fold sw sh.
  destruct (Z.eqb_spec sw 0); [lia|].
  destruct (Z.eqb_spec sh 0); [lia|]. simpl.
  rewrite Z.min_l by lia.
  destruct (Z.eqb_spec w sw); [lia|]. fold dh.
  unfold allocUnsafe. destruct (Z.ltb_spec (w * dh * 4) 0); [nia|].
  set (dst := map allocUnsafe_garbage (seq 0 (Z.to_nat (w * dh * 4)))).
  assert (Hdstlen : Z.of_nat (length dst) = 4 * w * dh).
  { subst dst. rewrite length_map, length_seq. lia. }
  destruct (resize_loops_done (data img) sw sh w dh
              ltac:(lia) ltac:(lia) ltac:(lia) ltac:(lia) ltac:(lia) ltac:(lia)
              dst Hdstlen) as [Hl Hdone].
  eexists (mkRawImage _ w dh). split; [reflexivity|]. simpl.
  split; [done|]. split; [done|]. split; [by rewrite Hl|].
  intros x y Hx Hy.
  set (sx := floor_div (x * sw) w). set (sy := floor_div (y * sh) dh).
  destruct (source_index_bounds sw sh w dh ltac:(lia) ltac:(lia) ltac:(lia) x y Hx Hy)
    as [Hsx Hsy].
  split; [done|].
  assert (Hsrcb : forall c, 0 <= c < 3 ->
    Some (sampled (data img) sw sh w dh x y c) =
    load (data img) (4 * (sy * sw + sx) + c)).
  { intros c Hc. unfold sampled. destruct (Z.eqb_spec c 3); [lia|].
    destruct (load_Some (data img) (4 * (sy * sw + sx) + c)) as [b Hb].
    { subst sx sy. nia. }
    subst sx sy. by rewrite Hb. }
  assert (Hn : y * w + x < dh * w) by nia.
  repeat split.
  - rewrite <- (Z.add_0_r (4 * (y * w + x))), <- (Z.add_0_r (4 * (sy * sw + sx))).
    rewrite <- Hsrcb by lia. apply Hdone; lia.
  - rewrite <- Hsrcb by lia. apply Hdone; lia.
  - rewrite <- Hsrcb by lia. apply Hdone; lia.
  - rewrite (Hdone x y 3) by lia. reflexivity.
Qed.

End ImageCodecFacts.

(** C5, as stated, fails: on an input the decoder rejects,
    [resizeJpegNearest] throws the decoder's error instead of returning the
    input. *)
Lemma resizeJpegNearest_undecodable_throws :
  @jpeg_decode rejecting_codec sample_4x2 = inl (Error "SOI not found") /\
  @resizeJpegNearest rejecting_codec sample_4x2 2 60 = inl (Error "SOI not found") /\
  @resizeJpegNearest rejecting_codec sample_4x2 2 60 <> inr sample_4x2.
Proof. repeat split; discriminate. Qed.

(** Witness for C5: target width 4 and 9 on the 4 x 2 sample, and the
    rejecting decoder. *)
Lemma resizeJpegNearest_identity_witness :
  @resizeJpegNearest raw_codec sample_4x2 9 60 = inr sample_4x2 /\
  @resizeJpegNearest rejecting_codec sample_4x2 9 60 = inl (Error "SOI not found").
Proof.
  split.
  - apply (proj1 (@resizeJpegNearest_identity raw_codec sample_4x2 9 60)
             (mkRawImage sample_4x2 4 2)); [reflexivity | left; simpl; lia].
  - apply (proj2 (@resizeJpegNearest_identity rejecting_codec sample_4x2 9 60)).
    reflexivity.
Defined.

(** Witness for C8: the 4 x 2 sample resized to width 2. *)
Lemma resizeJpegNearest_downscale_witness :
  exists out : RawImage,
    @resizeJpegNearest raw_codec sample_4x2 2 60 = inr (data out) /\
    width out = 2 /\ height out = 1 /\
    load (data out) (4 * (0 * 2 + 1)) = Some Byte.x30 /\
    load (data out) (4 * (0 * 2 + 1) + 3) = Some Byte.xff.
Proof.
  destruct (@resizeJpegNearest_downscale raw_codec sample_4x2 2 60
              (mkRawImage sample_4x2 4 2))
    as (out & Hres & Hw & Hh & _ & Hpix).
  - reflexivity.
  - simpl. lia.
  - simpl. lia.
  - simpl. lia.
  - reflexivity.
  - exists out. split; [exact Hres|]. split; [exact Hw|]. split; [exact Hh|].
    destruct (Hpix 1 0) as (_ & H0 & _ & _ & H3).
    + lia.
    + simpl. unfold round_div. simpl. lia.
    + split; [exact H0 | exact H3].
Defined.

(** ** Provider rotation *)

Section ProviderPool.

Context `{Host}.

Lemma selectProvider_nonempty (ids : list string) (w : World) :
  chatCompletions (values w) = Some ids ->
  ids <> [] ->
  selectProvider w =
  (inr (chain (ids !! currentProviderIndex w) getDeviceById),
   set_cursor ((currentProviderIndex w + 1) mod length ids)%nat
     (log_read (currentProviderIndex w) w)).
Proof.
  intros Hids Hne. unfold selectProvider, bind, gets, modify, ret.
  rewrite Hids. destruct ids as [|p ps]; [congruence|]. reflexivity.
Qed.

Lemma rotate_nat_add_mod (c j n : nat) :
  (0 < n)%nat -> rotate_nat_add c j n = ((c + j) mod n)%nat.
Proof.
  intros Hn. unfold rotate_nat_add.
  rewrite <- Nat2Z.inj_add, <- Nat2Z.inj_mod. apply Nat2Z.id.
Qed.

Lemma select_many_lookup (ids : list string) (n : nat) :
  ids <> [] ->
  forall w : World,
    chatCompletions (values w) = Some ids ->
    (currentProviderIndex w < length ids)%nat ->
    (select_many n w).1 =
      map (fun j => inr (chain (ids !! ((currentProviderIndex w + j) mod length ids)%nat)
                           getDeviceById)) (seq 0 n) /\
    currentProviderIndex (select_many n w).2 =
      ((currentProviderIndex w + n) mod length ids)%nat /\
    chatCompletions (values (select_many n w).2) = Some ids.
Proof.
  intros Hne. assert (Hlen : (0 < length ids)%nat).
  { destruct ids; [congruence | simpl; lia]. }
  induction n as [|n IH]; intros w Hids Hc.
  - simpl. rewrite Nat.add_0_r, Nat.mod_small by lia. auto.
  - simpl. rewrite (selectProvider_nonempty ids w Hids Hne).
    set (w1 := set_cursor _ _).
    destruct (IH w1) as (Hrs & Hcur & Hval); [exact Hids | |].
    { simpl. apply Nat.mod_upper_bound. lia. }
    destruct (select_many n w1) as [rs w2]. simpl in *.
    split; [|split]; [| |exact Hval].
    + f_equal.
      * rewrite Nat.add_0_r, Nat.mod_small by lia. reflexivity.
      * rewrite Hrs, <- seq_shift, map_map. apply map_ext. intros j.
        rewrite Nat.Div0.add_mod_idemp_l by lia.
        replace (currentProviderIndex w + 1 + j)%nat
          with (currentProviderIndex w + S j)%nat by lia.
        reflexivity.
    + rewrite Hcur, Nat.Div0.add_mod_idemp_l by lia. f_equal. lia.
Qed.

Lemma rotate_perm {A : Type} (c : nat) (l : list A) : rotate c l ≡ₚ l.
Proof.
  unfold rotate. rewrite Permutation_app_comm. by rewrite take_drop.
Qed.

(** C6: with a fixed non-empty provider list of length N and the cursor
    inside it (it starts at 0), N consecutive selections return the
    providers in configured order starting at the cursor, each exactly once;
    the cursor is then back where it was, so the next selection returns the
    first one again.  From the initial cursor 0 the N selections are the
    configured list itself. *)
Theorem selectProvider_round_robin (ids : list string) (w : World) :
  ids <> [] ->
  chatCompletions (values w) = Some ids ->
  (currentProviderIndex w < length ids)%nat ->
  (select_many (length ids) w).1 =
    map (fun i => inr (getDeviceById i)) (rotate (currentProviderIndex w) ids) /\
  rotate (currentProviderIndex w) ids ≡ₚ ids /\
  (currentProviderIndex w = 0%nat ->
   (select_many (length ids) w).1 = map (fun i => inr (getDeviceById i)) ids) /\
  currentProviderIndex (select_many (length ids) w).2 = currentProviderIndex w /\
  (selectProvider (select_many (length ids) w).2).1 = (selectProvider w).1 /\
  head (select_many (length ids) w).1 = Some (selectProvider w).1.
Proof.
  intros Hne Hids Hc.
  assert (Hlen : (0 < length ids)%nat) by lia.
  destruct (select_many_lookup ids (length ids) Hne w Hids Hc) as (Hrs & Hcur & Hval).
  assert (Hrot : (select_many (length ids) w).1 =
    map (fun i => inr (getDeviceById i)) (rotate (currentProviderIndex w) ids)).
  { rewrite Hrs. apply list_eq. intros j.
    rewrite !list_lookup_fmap.
    destruct (decide (j < length ids)%nat) as [Hj|Hj].
    - rewrite lookup_seq_lt by lia. rewrite lookup_rotate_r by lia.
      rewrite rotate_nat_add_mod by lia. simpl.
      destruct (lookup_lt_is_Some_2 ids ((currentProviderIndex w + j) mod length ids))
        as [p Hp]; [apply Nat.mod_upper_bound; lia|].
      rewrite Hp. reflexivity.
    - rewrite lookup_seq_ge by lia.
      rewrite (lookup_ge_None_2 (rotate _ _)) by (rewrite length_rotate; lia).
      reflexivity. }
  assert (Hback : currentProviderIndex (select_many (length ids) w).2
                  = currentProviderIndex w).
  { rewrite Hcur. rewrite <- Nat.Div0.add_mod_idemp_r, Nat.Div0.mod_same by lia.
    rewrite Nat.add_0_r. apply Nat.mod_small. lia. }
  split; [exact Hrot|]. split; [apply rotate_perm|].
  split.
  { intros H0. rewrite Hrot, H0. unfold rotate. simpl.
    rewrite Nat.Div0.mod_0_l. simpl. by rewrite app_nil_r. }
  split; [exact Hback|]. split.
  - rewrite (selectProvider_nonempty ids _ Hval Hne),
            (selectProvider_nonempty ids w Hids Hne). simpl.
    by rewrite Hback.
  - rewrite Hrs, (selectProvider_nonempty ids w Hids Hne).
    destruct (length ids) as [|n] eqn:HN; [lia|].
    cbn [seq map head fst]. rewrite Nat.add_0_r, Nat.mod_small by lia.
    reflexivity.
Qed.

(** C7: on an absent or empty provider list [selectProvider] throws its
    configuration error and leaves the world as it was, so the list was not
    read at any index; on a non-empty list it returns, has read the list at
    the old cursor only, and leaves a cursor that is a valid index of the
    list. *)
Theorem selectProvider_guard (w : World) :
  match chatCompletions (values w) with
  | None | Some [] =>
      selectProvider w = (inl (Error "No LLM providers selected"), w)
  | Some ids =>
      exists (d : option Device) (w' : World),
        selectProvider w = (inr d, w') /\
        (currentProviderIndex w' < length ids)%nat /\
        chatCompletions (values w') = Some ids /\
        provider_reads w' = (provider_reads w ++ [currentProviderIndex w])%list
  end.
Proof.
  destruct (chatCompletions (values w)) as [[|p ps]|] eqn:Hids.
  - unfold selectProvider, bind, gets, throw. by rewrite Hids.
  - eexists _, _. rewrite (selectProvider_nonempty (p :: ps) w Hids) by congruence.
    split; [reflexivity|]. simpl. split; [|by rewrite Hids].
    apply (Nat.mod_upper_bound _ (S (length ps))). lia.
  - unfold selectProvider, bind, gets, throw. by rewrite Hids.
Qed.

End ProviderPool.

(** Witness for C6: three providers, cursor 0. *)
Lemma selectProvider_round_robin_witness :
  let h := Samples.host_with Samples.convert_ok Samples.chat_richard Samples.downstream_ok in
  let ids := ["llm-a"; "llm-b"; "llm-c"] in
  (@select_many h 3 Samples.world0).1 =
    [inr (Some (mkDevice "llm-a")); inr (Some (mkDevice "llm-b"));
     inr (Some (mkDevice "llm-c"))] /\
  (@selectProvider h (@select_many h 3 Samples.world0).2).1 =
    inr (Some (mkDevice "llm-a")).
Proof.
  intros h ids.
  destruct (@selectProvider_round_robin h ids Samples.world0)
    as (_ & _ & H0 & _ & Hnext & _).
  - discriminate.
  - reflexivity.
  - simpl. lia.
  - split; [exact (H0 eq_refl) | exact Hnext].
Defined.

(** ** Deadline of the inference call *)

Example llmTimeout_default :
  llmTimeout (mkValues true None None None EmptyString true) = 90000%float.
Proof. reflexivity. Qed.

(** C9, as stated, fails: a setting of one and a half seconds gives a
    deadline of 1500 ms, strictly between one second and two, so the value
    was not made an integer. *)
Lemma llmTimeout_fractional_seconds :
  let d := llmTimeout (mkValues true None (Some 1.5%float) None EmptyString true) in
  d = 1500%float /\
  PrimFloat.ltb 1000 d = true /\ PrimFloat.ltb d 2000 = true /\
  forall n : Z, 1500 <> 1000 * n.
Proof.
  cbv zeta. split; [reflexivity|]. split; [reflexivity|]. split; [reflexivity|].
  intros n. lia.
Qed.

(** C9 (amended): a missing setting counts as 90 seconds.  A setting that is
    a number above 1 is multiplied by 1000 as it is, without rounding to an
    integer; any other number gives 1000 ms, the floor of one second; [NaN]
    stays [NaN].  The product is that of binary64. *)
Theorem llmTimeout_spec (v : StorageValues) :
  match llmTimeoutMs v with
  | None => llmTimeout v = 90000%float
  | Some x =>
      llmTimeout v =
        if PrimFloat.is_nan x then PrimFloat.nan
        else if PrimFloat.ltb 1 x then PrimFloat.mul x 1000
        else 1000%float
  end.
Proof.
  unfold llmTimeout, times, Math_max.
  destruct (llmTimeoutMs v) as [x|]; [|reflexivity]. simpl.
  destruct (PrimFloat.is_nan x); [reflexivity|].
  destruct (PrimFloat.ltb 1 x); [reflexivity|].
  destruct (PrimFloat.ltb x 1); reflexivity.
Qed.

(** Settings at or below the floor, whole seconds, and the two ends of
    binary64: the product of 1.005 (the nearest number to it) and 1000 is
    rounded and falls just short of 1005; a product beyond the largest
    number is [Infinity]. *)
Example llmTimeout_values :
  let deadline x :=
    llmTimeout (mkValues true None (Some x) None EmptyString true) in
  deadline 0%float = 1000%float /\
  deadline (-5)%float = 1000%float /\
  deadline 0.5%float = 1000%float /\
  deadline 1%float = 1000%float /\
  deadline 30%float = 30000%float /\
  deadline 90%float = 90000%float /\
  deadline 0x1.0147ae147ae14p+0%float = 0x1.f67ffffffffffp+9%float /\
  PrimFloat.ltb (deadline 0x1.0147ae147ae14p+0%float) 1005 = true /\
  deadline 0x1.6c8e5ca239029p+1016%float = PrimFloat.infinity /\
  deadline PrimFloat.infinity = PrimFloat.infinity /\
  deadline PrimFloat.neg_infinity = 1000%float /\
  deadline PrimFloat.nan = PrimFloat.nan.
Proof.
  repeat split; reflexivity.
Qed.

(** ** The orchestration *)

Section Orchestration.

Context `{Host}.

Lemma same_view_refl (f : Frame) : same_view f f.
Proof. by repeat split. Qed.

Lemma same_view_trans (f1 f2 f3 : Frame) :
  same_view f1 f2 -> same_view f2 f3 -> same_view f1 f3.
Proof.
  intros (A1 & A2 & A3 & A4 & A5) (B1 & B2 & B3 & B4 & B5).
  repeat split; congruence.
Qed.

Lemma counted_same_view (g : Stats -> Stats) (f1 f2 f3 : Frame) :
  counted g f1 f2 -> same_view f2 f3 -> counted g f1 f3.
Proof.
  intros (A1 & A2 & A3 & A4 & A5) (B1 & B2 & B3 & B4 & B5).
  repeat split; congruence.
Qed.

Lemma quiet_ret {A : Type} (a : A) : quiet (ret a).
Proof. intros f. apply same_view_refl. Qed.

Lemma quiet_throw {A : Type} (e : Exn) : quiet (@throw Frame A e).
Proof. intros f. apply same_view_refl. Qed.

Lemma quiet_gets {A : Type} (g : Frame -> A) : quiet (gets g).
Proof. intros f. apply same_view_refl. Qed.

Lemma quiet_lift {A : Type} (r : Result A) : quiet (@lift Frame A r).
Proof. intros f. apply same_view_refl. Qed.

Lemma quiet_bind {A B : Type} (c : M Frame A) (k : A -> M Frame B) :
  quiet c -> (forall a, quiet (k a)) -> quiet (bind c k).
Proof.
  intros Hc Hk f. unfold bind. specialize (Hc f).
  destruct (c f) as [[e|a] f1]; simpl in *; [done|].
  eapply same_view_trans; [exact Hc | apply Hk].
Qed.

Lemma quiet_try_catch {A : Type} (c : M Frame A) (h : Exn -> M Frame A) :
  quiet c -> (forall e, quiet (h e)) -> quiet (try_catch c h).
Proof.
  intros Hc Hh f. unfold try_catch. specialize (Hc f).
  destruct (c f) as [[e|a] f1]; simpl in *; [|done].
  eapply same_view_trans; [exact Hc | apply Hh].
Qed.

Lemma quiet_await {A : Type} (g : nat -> Result A) : quiet (in_world (await g)).
Proof. intros f. by repeat split. Qed.

Lemma quiet_selectProvider : quiet (in_world selectProvider).
Proof.
  intros f. unfold in_world, zoom, selectProvider, bind, gets, modify, ret, throw.
  destruct (chatCompletions (values (world f))) as [[|p ps]|]; by repeat split.
Qed.

Ltac quiet_step :=
  lazymatch goal with
  | |- quiet (bind _ _) => apply quiet_bind; [|intros ?]
  | |- quiet (try_catch _ _) => apply quiet_try_catch; [|intros ?]
  | |- quiet (ret _) => apply quiet_ret
  | |- quiet (throw _) => apply quiet_throw
  | |- quiet (gets _) => apply quiet_gets
  | |- quiet (lift _) => apply quiet_lift
  | |- quiet (in_world (await _)) => apply quiet_await
  | |- quiet (in_world selectProvider) => apply quiet_selectProvider
  | |- quiet (match ?x with _ => _ end) => destruct x
  | |- quiet (let _ := _ in _) => cbv zeta
  end.

Lemma quiet_fetchFullFrame (m : Media) : quiet (fetchFullFrame m).
Proof. unfold fetchFullFrame. repeat quiet_step. Qed.

Lemma quiet_requestEnhancement (t : MessageTemplate) : quiet (requestEnhancement t).
Proof. unfold requestEnhancement. repeat quiet_step. Qed.

Lemma forward_view (title : string) (media icon : option Media)
  (f f' : Frame) (r : Result unit) :
  forward title media icon f = (r, f') ->
  r = mixinDevice_sendNotification (sent (world f)) (call_of title media icon f) /\
  sent (world f') = (sent (world f) ++ [call_of title media icon f])%list /\
  heap (world f') = heap (world f) /\
  notificationStats (world f') = notificationStats (world f) /\
  values (world f') = values (world f) /\
  options_var f' = options_var f.
Proof. unfold forward. intros [= <- <-]. simpl. by repeat split. Qed.

Lemma options_update_then {A : Type} (newSubtitle newBody : string)
  (k : M Frame A) (f : Frame) :
  exists f2 : Frame,
    options_updated newSubtitle newBody f f2 /\
    bind options_or_assign_empty
      (fun _ => bind (options_assign newBody newSubtitle) (fun _ => k)) f = k f2.
Proof.
  unfold bind, options_or_assign_empty, options_assign, options_updated,
    options_target.
  destruct (options_var f) as [l|] eqn:Hvar; simpl.
  - rewrite Hvar. eexists. split; [|reflexivity]. simpl. by repeat split.
  - eexists. split; [|reflexivity]. simpl.
    rewrite lookup_insert_eq, insert_insert_eq.
    assert (Hfresh : heap (world f) !! fresh (dom (heap (world f))) = None).
    { apply not_elem_of_dom, is_fresh. }
    rewrite Hfresh. by repeat split.
Qed.

(** What [enhance] does, by the outcome of [requestEnhancement]. *)
Lemma enhance_cases (title : string) (media icon : option Media)
  (t : MessageTemplate) (f : Frame) :
  exists (r : Result unit) (f' : Frame),
    enhance title media icon t f = (r, f') /\
    ((exists e f1,
        requestEnhancement t f = (inl e, f1) /\ same_view f f1 /\
        (r, f') = forward title media icon f1)
     \/
     (exists newTitle newSubtitle newBody f1 f2,
        requestEnhancement t f = (inr (newTitle, newSubtitle, newBody), f1) /\
        same_view f f1 /\
        options_updated newSubtitle newBody f1 f2 /\
        ((forward newTitle media icon f2 = (inr tt, f') /\ r = inr tt)
         \/
         (exists e f3,
            forward newTitle media icon f2 = (inl e, f3) /\
            (r, f') = forward title media icon f3)))).
Proof.
  pose proof (quiet_requestEnhancement t f) as Hq.
  unfold enhance, try_catch. unfold bind at 1.
  destruct (requestEnhancement t f) as [[e|[[newTitle newSubtitle] newBody]] f1];
    simpl in Hq.
  - eexists _, _. split; [apply surjective_pairing|]. left.
    eexists _, _. split; [reflexivity|]. split; [exact Hq|].
    symmetry. apply surjective_pairing.
  - destruct (options_update_then newSubtitle newBody
                (forward newTitle media icon) f1) as (f2 & Hup & ->).
    destruct (forward newTitle media icon f2) as [[e|[]] f3] eqn:Hfw.
    + eexists _, _. split; [apply surjective_pairing|]. right.
      eexists _, _, _, _, _. split; [reflexivity|]. split; [exact Hq|].
      split; [exact Hup|]. right. eexists _, _. split; [exact Hfw|].
      symmetry. apply surjective_pairing.
    + eexists _, _. split; [reflexivity|]. right.
      eexists _, _, _, _, _. split; [reflexivity|]. split; [exact Hq|].
      split; [exact Hup|]. left. by split.
Qed.

Lemma try_catch_ret_total {A : Type} (c : M Frame A) (a : A) (f : Frame) :
  exists (x : A) (f1 : Frame), try_catch c (fun _ => ret a) f = (inr x, f1).
Proof.
  unfold try_catch, ret. destruct (c f) as [[e|x] f1]; by eexists _, _.
Qed.

(** Lines 181-291, once [imageUrl] is known. *)
Lemma sendNotification_tail_cases (title : string) (media icon : option Media)
  (m : Media) (imageUrl : string) (f fE : Frame) :
  enabled (values (world f)) = true ->
  counted count_enhanced f fE ->
  is_Some (truthy_media media) ->
  exists (r : Result unit) (f' : Frame),
    (let* fullFrameUrl := try_catch (fetchFullFrame m) (fun _ => ret None) in
     let* options := gets options_value in
     match
       buildImageList (effective_snapshotMode (values (world f)))
         fullFrameUrl (Some imageUrl)
     with
     | [] => forward title media icon
     | _ :: _ =>
         enhance title media icon
           (createMessageTemplate (userPrompt (values (world f)))
              (buildImageList (effective_snapshotMode (values (world f)))
                 fullFrameUrl (Some imageUrl))
              (buildMetadata (values (world f)) title options))
     end) fE = (r, f') /\
    paths title media icon f r f'.
Proof.
  intros Hen HfE Hmedia.
  assert (Hq : quiet (try_catch (fetchFullFrame m) (fun _ => ret None))).
  { apply quiet_try_catch; [apply quiet_fetchFullFrame | intros; apply quiet_ret]. }
  specialize (Hq fE).
  destruct (try_catch_ret_total (fetchFullFrame m) None fE) as (url & f1 & Hfetch).
  rewrite Hfetch in Hq. simpl in Hq.
  assert (Hf1 : counted count_enhanced f f1) by (eapply counted_same_view; eauto).
  unfold bind at 1. rewrite Hfetch. unfold bind at 1, gets at 1.
  destruct (buildImageList _ url (Some imageUrl)) as [|u us].
  - eexists _, _. split; [apply surjective_pairing|]. right. right. left.
    split; [done|]. split; [done|]. eexists. split; [exact Hf1|].
    symmetry. apply surjective_pairing.
  - match goal with
    | |- context [enhance title media icon ?t f1] =>
        destruct (enhance_cases title media icon t f1) as (r & f' & -> & Hcases)
    end.
    eexists _, _. split; [reflexivity|].
    destruct Hcases as [(e & f2 & _ & Hv & Hfw)
                       |(nt & ns & nb & f2 & f3 & _ & Hv & Hup & Hfw)].
    + right. right. left. split; [done|]. split; [done|].
      exists f2. split; [|exact Hfw]. eapply counted_same_view; eauto.
    + right. right. right. split; [done|]. split; [done|].
      exists nt, ns, nb, f2, f3. split; [eapply counted_same_view; eauto|].
      by split.
Qed.

(** What [sendNotification] does, path by path: the skip, a failed
    conversion of the attached media object, the forward of the original
    after an empty snapshot list or a failed enhancement, and the forward of
    a validated response. *)
Lemma sendNotification_body_cases (title : string) (media icon : option Media)
  (f : Frame) :
  exists (r : Result unit) (f' : Frame),
    sendNotification_body title media icon f = (r, f') /\
    paths title media icon f r f'.
Proof.
  unfold sendNotification_body.
  unfold bind at 1, update_stats at 1, modify at 1.
  unfold bind at 1, gets at 1. cbn [world values set_world set_stats].
  destruct (truthy_media media) as [m|] eqn:Hm.
  2:{ unfold bind, update_stats, modify.
      eexists _, _. split; [apply surjective_pairing|]. left.
      split; [by left|]. eexists. split; [|symmetry; apply surjective_pairing].
      by repeat split. }
  destruct (enabled (values (world f))) eqn:Hen.
  2:{ unfold bind, update_stats, modify.
      eexists _, _. split; [apply surjective_pairing|]. left.
      split; [by right|]. eexists. split; [|symmetry; apply surjective_pairing].
      by repeat split. }
  unfold bind at 1, update_stats at 1, modify at 1.
  set (fE := set_world (set_stats (bump_withSnapshot _) _) _).
  assert (HfE : counted count_enhanced f fE) by by repeat split.
  assert (Hclock : clock (world fE) = clock (world f)) by reflexivity.
  clearbody fE.
  unfold bind at 1.
  destruct m as [s|mo].
  - (* the media is already an image reference *)
    unfold ret at 1.
    apply (sendNotification_tail_cases title media icon _ s f fE Hen HfE).
    by rewrite Hm.
  - (* the media object is converted first *)
    unfold bind at 1, in_world at 1, zoom, await at 1.
    rewrite Hclock.
    destruct (convertMediaObjectToBuffer (clock (world f)) mo) as [e|buffer] eqn:Hconv.
    + eexists _, _. split; [reflexivity|]. right. left.
      split; [done|]. eexists _, _. split; [done|]. split; [done|].
      split; [done|]. eapply counted_same_view; [exact HfE|]. by repeat split.
    + unfold ret at 1.
      apply (sendNotification_tail_cases title media icon _ (dataUrl buffer) f _ Hen).
      * eapply counted_same_view; [exact HfE|]. by repeat split.
      * by rewrite Hm.
Qed.

Lemma call_of_counted (g : Stats -> Stats) (title : string)
  (media icon : option Media) (f f1 : Frame) :
  counted g f f1 -> call_of title media icon f1 = call_of title media icon f.
Proof.
  intros (_ & Hh & _ & _ & Ho). unfold call_of, options_value. by rewrite Hh, Ho.
Qed.

Lemma forward_original (g : Stats -> Stats) (title : string)
  (media icon : option Media) (f f1 f' : Frame) (r : Result unit) :
  counted g f f1 ->
  (r, f') = forward title media icon f1 ->
  values (world f') = values (world f) /\
  notificationStats (world f') = g (notificationStats (world f)) /\
  sent (world f') = (sent (world f) ++ [call_of title media icon f])%list /\
  heap (world f') = heap (world f) /\
  r = mixinDevice_sendNotification (sent (world f)) (call_of title media icon f).
Proof.
  intros Hc Hfw. symmetry in Hfw.
  destruct (forward_view _ _ _ _ _ _ Hfw) as (Hr & Hs & Hh & Hst & Hv & Ho).
  rewrite (call_of_counted g _ _ _ f f1 Hc) in Hr, Hs.
  destruct Hc as (C1 & C2 & C3 & C4 & C5).
  repeat split; congruence.
Qed.

Lemma paths_effects (title : string) (media icon : option Media)
  (f f' : Frame) (r : Result unit) :
  paths title media icon f r f' -> effects title media icon f r f'.
Proof.
  intros [(Hskip & f1 & Hc & Hfw)
         |[(Hen & mo & e & Hm & Hconv & -> & Hc)
          |[(Hen & Hm & f1 & Hc & Hfw)
           |(Hen & Hm & nt & ns & nb & f1 & f2 & Hc & Hup & Hfw)]]].
  - destruct (forward_original _ _ _ _ _ _ _ _ Hc Hfw) as (Hv & Hst & Hs & Hh & Hr).
    split; [done|]. split; [by left|]. eexists. split; [exact Hs|].
    right. left. by repeat split.
  - destruct Hc as (C1 & C2 & C3 & C4 & C5).
    split; [done|]. split; [by right|]. exists []. split; [by rewrite app_nil_r|].
    left. split; [done|]. split; [done|]. by exists mo, e.
  - destruct (forward_original _ _ _ _ _ _ _ _ Hc Hfw) as (Hv & Hst & Hs & Hh & Hr).
    split; [done|]. split; [by right|]. eexists. split; [exact Hs|].
    right. left. by repeat split.
  - destruct Hc as (C1 & C2 & C3 & C4 & C5).
    destruct Hup as (U1 & U2 & U3 & U4 & U5).
    rewrite C2, C5 in U4, U5.
    set (l := options_target (heap (world f)) (options_var f)) in *.
    set (o := enhanced_options ns nb (heap (world f) !! l)) in *.
    assert (Hcall : forall t, call_of t media icon f2 = mkCall t (Some l) (Some o) media icon).
    { intros t. unfold call_of, options_value. rewrite U4, U5. simpl.
      by rewrite lookup_insert_eq. }
    destruct Hfw as [(Hfw & ->)|(e & f3 & Hfw & Hfb)].
    + destruct (forward_view _ _ _ _ _ _ Hfw) as (Hr & Hs & Hh & Hst & Hv & Ho).
      rewrite Hcall in Hr, Hs.
      split; [congruence|]. split; [right; congruence|].
      eexists. split; [rewrite Hs, U1, C1; reflexivity|].
      right. right. exists nt, ns, nb. cbv zeta. fold l. fold o.
      split; [by rewrite Hh, U5|].
      split; [done|]. split; [done|]. left.
      split; [done|]. split; [|done]. by rewrite Hr, U1, C1.
    + destruct (forward_view _ _ _ _ _ _ Hfw) as (Hr & Hs & Hh & Hst & Hv & Ho).
      rewrite Hcall in Hr, Hs. symmetry in Hfb.
      destruct (forward_view _ _ _ _ _ _ Hfb) as (Hr' & Hs' & Hh' & Hst' & Hv' & Ho').
      assert (Hcall3 : call_of title media icon f3 = mkCall title (Some l) (Some o) media icon).
      { rewrite <- Hcall. unfold call_of, options_value. by rewrite Ho, Hh. }
      rewrite Hcall3 in Hr', Hs'.
      split; [congruence|]. split; [right; congruence|].
      eexists. split.
      { rewrite Hs', Hs, U1, C1, <- app_assoc. reflexivity. }
      right. right. exists nt, ns, nb. cbv zeta. fold l. fold o.
      split; [by rewrite Hh', Hh, U5|].
      split; [done|]. split; [done|]. right.
      split; [done|]. split.
      * exists e. by rewrite Hr, U1, C1.
      * by rewrite Hr', Hs, U1, C1.
Qed.

(** Every run of [sendNotification] is described by [effects]. *)
Lemma sendNotification_effects (title : string) (options : option nat)
  (media icon : option Media) (w : World) :
  exists f' : Frame,
    sendNotification title options media icon w =
      ((sendNotification title options media icon w).1, world f') /\
    effects title media icon (mkFrame w options)
      (sendNotification title options media icon w).1 f'.
Proof.
  unfold sendNotification.
  destruct (sendNotification_body_cases title media icon (mkFrame w options))
    as (r & f' & -> & Hp).
  exists f'. split; [reflexivity|]. simpl. by apply paths_effects.
Qed.

(** One call moves the counters by one step. *)
Lemma sendNotification_counts (title : string) (options : option nat)
  (media icon : option Media) (w : World) :
  let st := notificationStats w in
  let st' := notificationStats (sendNotification title options media icon w).2 in
  total st' = S (total st) /\
  ((withSnapshot st' = S (withSnapshot st) /\ withoutSnapshot st' = withoutSnapshot st)
   \/
   (withSnapshot st' = withSnapshot st /\ withoutSnapshot st' = S (withoutSnapshot st))).
Proof.
  destruct (sendNotification_effects title options media icon w)
    as (f' & -> & _ & [Hst|Hst] & _); simpl; rewrite Hst; simpl; auto.
Qed.

(** A sequence of calls moves the counters by its length. *)
Lemma run_counts (calls : list Inbound) (w : World) :
  let st := notificationStats w in
  let st' := notificationStats (run calls w) in
  (total st' = total st + length calls /\
   withSnapshot st' + withoutSnapshot st' =
     withSnapshot st + withoutSnapshot st + length calls /\
   withSnapshot st <= withSnapshot st' /\
   withoutSnapshot st <= withoutSnapshot st')%nat.
Proof.
  revert w. induction calls as [|c rest IH]; intros w; simpl.
  - lia.
  - pose proof (sendNotification_counts (in_title c) (in_options c)
                  (in_media c) (in_icon c) w) as Hone.
    simpl in Hone.
    specialize (IH (sendNotification (in_title c) (in_options c)
                      (in_media c) (in_icon c) w).2).
    simpl in IH. lia.
Qed.

(** C10: one call increments [total] by one and exactly one of
    [withSnapshot] and [withoutSnapshot] by one; over any sequence of calls
    [total] grows by the number of calls, as does the sum of the other two,
    and neither of them decreases; so [total] minus that sum never changes,
    and it is zero at start-up. *)
Theorem notificationStats_invariant (calls : list Inbound) (w : World)
  (title : string) (options : option nat) (media icon : option Media) :
  let st := notificationStats w in
  let st1 := notificationStats (sendNotification title options media icon w).2 in
  let st' := notificationStats (run calls w) in
  (total st1 = S (total st) /\
   ((withSnapshot st1 = S (withSnapshot st) /\ withoutSnapshot st1 = withoutSnapshot st)
    \/
    (withSnapshot st1 = withSnapshot st /\ withoutSnapshot st1 = S (withoutSnapshot st)))) /\
  (total st' = total st + length calls /\
   withSnapshot st' + withoutSnapshot st' =
     withSnapshot st + withoutSnapshot st + length calls /\
   withSnapshot st <= withSnapshot st' /\
   withoutSnapshot st <= withoutSnapshot st')%nat /\
  (total st' + (withSnapshot st + withoutSnapshot st) =
   total st + (withSnapshot st' + withoutSnapshot st'))%nat.
Proof.
  split; [apply sendNotification_counts|].
  pose proof (run_counts calls w) as Hrun. simpl in Hrun.
  split; [exact Hrun|]. simpl. lia.
Qed.

(** From start-up, where the counters are zero, [total] is the sum of the
    other two after any sequence of calls. *)
Corollary notificationStats_from_startup (calls : list Inbound) (w : World) :
  notificationStats w = mkStats 0 0 0 ->
  let st' := notificationStats (run calls w) in
  (total st' = withSnapshot st' + withoutSnapshot st')%nat /\
  total st' = length calls.
Proof.
  intros H0.
  destruct (run_counts calls w) as (Ht & Hs & _).
  rewrite H0 in Ht, Hs. simpl in *. lia.
Qed.

(** Where the single forward holds: if the conversion of the attached
    media object does not throw and the first forward does not throw, the
    downstream notifier receives exactly one call, whatever the full-frame
    fetch, the provider selection, the inference call, parsing and
    validation do. *)
Lemma sendNotification_single_forward (title : string) (options : option nat)
  (media icon : option Media) (w : World) :
  (forall mo, truthy_media media = Some (MediaObj mo) ->
     exists buffer, convertMediaObjectToBuffer (clock w) mo = inr buffer) ->
  (forall c, mixinDevice_sendNotification (sent w) c = inr tt) ->
  exists c : Call,
    sent (sendNotification title options media icon w).2 = (sent w ++ [c])%list /\
    (sendNotification title options media icon w).1 = inr tt.
Proof.
  intros Hconv Hdown.
  destruct (sendNotification_effects title options media icon w)
    as (f' & -> & _ & _ & cs & Hs & Hcase). simpl in *.
  destruct Hcase as [(_ & _ & mo & e & Hm & _ & He & _)
                    |[(_ & -> & Hr)
                     |(nt & ns & nb & _ & _ & _ & Hcs)]].
  - destruct (Hconv mo Hm) as [b Hb]. congruence.
  - eexists. split; [exact Hs|]. by rewrite Hr, Hdown.
  - destruct Hcs as [(-> & _ & Hr)|(_ & (e & He) & _)].
    + eexists. by split.
    + rewrite Hdown in He. discriminate.
Qed.

(** The number of calls one run makes is 0, 1 or 2, and the outcome is a
    failure only if the conversion threw before any call or the last call
    threw. *)
Lemma sendNotification_outcome (title : string) (options : option nat)
  (media icon : option Media) (w : World) :
  exists cs : list Call,
    sent (sendNotification title options media icon w).2 = (sent w ++ cs)%list /\
    (length cs <= 2)%nat /\
    match reverse cs with
    | [] =>
        exists mo e,
          truthy_media media = Some (MediaObj mo) /\
          convertMediaObjectToBuffer (clock w) mo = inl e /\
          (sendNotification title options media icon w).1 = inl e
    | c :: before =>
        (sendNotification title options media icon w).1 =
        mixinDevice_sendNotification (sent w ++ reverse before) c
    end.
Proof.
  destruct (sendNotification_effects title options media icon w)
    as (f' & -> & _ & _ & cs & Hs & Hcase). simpl in *.
  exists cs. split; [exact Hs|].
  destruct Hcase as [(_ & -> & mo & e & Hm & _ & He & Hr)
                    |[(_ & -> & Hr)
                     |(nt & ns & nb & _ & _ & _ & [(-> & Hd & Hr)|(-> & _ & Hr)])]];
    simpl.
  - split; [lia|]. by exists mo, e.
  - split; [lia|]. by rewrite app_nil_r.
  - split; [lia|]. rewrite app_nil_r. congruence.
  - split; [lia|]. exact Hr.
Qed.

(** Every failure from provider selection to validation is caught:
    [enhance] then forwards the original title with the unchanged
    [options], and the options objects are as before. *)
Lemma enhance_failure_forwards_original (title : string)
  (media icon : option Media) (t : MessageTemplate) (f f1 : Frame) (e : Exn) :
  requestEnhancement t f = (inl e, f1) ->
  enhance title media icon t f = forward title media icon f1 /\
  same_view f f1 /\
  (enhance title media icon t f).1 =
    mixinDevice_sendNotification (sent (world f)) (call_of title media icon f) /\
  sent (world (enhance title media icon t f).2) =
    (sent (world f) ++ [call_of title media icon f])%list /\
  heap (world (enhance title media icon t f).2) = heap (world f).
Proof.
  intros Hreq.
  assert (Hq : same_view f f1).
  { pose proof (quiet_requestEnhancement t f) as Hq. by rewrite Hreq in Hq. }
  assert (Hrun : enhance title media icon t f = forward title media icon f1).
  { unfold enhance, try_catch. unfold bind at 1. by rewrite Hreq. }
  split; [exact Hrun|]. split; [exact Hq|]. rewrite Hrun.
  destruct Hq as (Q1 & Q2 & Q3 & Q4 & Q5).
  unfold forward, call_of, options_value. simpl. rewrite Q1, Q2, Q5. by repeat split.
Qed.

End Orchestration.

(** ** The orchestration on concrete surroundings *)

(** C1 fails on the code.  With a media object whose conversion to a JPEG
    buffer throws, [sendNotification] throws before any forward: the
    downstream notifier receives no call.  With a downstream notifier whose
    first delivery throws and a valid response, the enhanced notification is
    forwarded, the failure is caught and a second call follows: the
    downstream notifier receives two calls. *)
Lemma sendNotification_not_single_forward :
  let dropping := Samples.host_with Samples.convert_fails Samples.chat_richard
                    Samples.downstream_ok in
  let retrying := Samples.host_with Samples.convert_ok Samples.chat_richard
                    Samples.downstream_first_fails in
  sent (@sendNotification dropping "Person" (Some 0%nat) (Some Samples.snapshot)
          None Samples.world0).2 = [] /\
  (@sendNotification dropping "Person" (Some 0%nat) (Some Samples.snapshot)
     None Samples.world0).1 = inl (Error "conversion failed") /\
  map c_title
    (sent (@sendNotification retrying "Person" (Some 0%nat) (Some Samples.snapshot)
             None Samples.world0).2)
    = ["Richard at front door"; "Person"].
Proof. repeat split; vm_compute; reflexivity. Qed.

(** C2 fails on the code.  The failure of the media conversion reaches the
    caller although no forward was made, so a failed forward is not the only
    failure that propagates; and a failed forward of the enhanced
    notification does not reach the caller when the second forward
    succeeds. *)
Lemma sendNotification_propagation :
  let dropping := Samples.host_with Samples.convert_fails Samples.chat_richard
                    Samples.downstream_ok in
  let retrying := Samples.host_with Samples.convert_ok Samples.chat_richard
                    Samples.downstream_first_fails in
  let r1 := @sendNotification dropping "Person" (Some 0%nat)
              (Some Samples.snapshot) None Samples.world0 in
  let r2 := @sendNotification retrying "Person" (Some 0%nat)
              (Some Samples.snapshot) None Samples.world0 in
  (r1.1 = inl (Error "conversion failed") /\ sent r1.2 = []) /\
  (r2.1 = inr tt /\
   exists c1 c2,
     sent r2.2 = [c1; c2] /\
     @mixinDevice_sendNotification retrying [] c1 = inl (Error "delivery failed") /\
     c_title c1 = "Richard at front door" /\ c_title c2 = "Person" /\
     c_options_value c2 = c_options_value c1).
Proof.
  split; [split; vm_compute; reflexivity|].
  split; [vm_compute; reflexivity|].
  eexists _, _. split; [vm_compute; reflexivity|]. repeat split.
Qed.

(** A timeout of the provider is caught: the original notification is
    forwarded once and the caller sees the outcome of that forward. *)
Example sendNotification_timeout_falls_back :
  let h := Samples.host_with Samples.convert_ok Samples.chat_timeout
             Samples.downstream_ok in
  let r := @sendNotification h "Person" (Some 0%nat) (Some Samples.snapshot)
             None Samples.world0 in
  r.1 = inr tt /\
  sent r.2 = [mkCall "Person" (Some 0%nat) (Some Samples.motion)
                (Some Samples.snapshot) None] /\
  heap r.2 !! 0%nat = Some Samples.motion.
Proof. repeat split; vm_compute; reflexivity. Qed.

(** C4, as stated, fails: after an enhancement the options object the
    caller passed has a new subtitle and body. *)
Lemma sendNotification_mutates_options :
  let h := Samples.host_with Samples.convert_ok Samples.chat_richard
             Samples.downstream_ok in
  let w' := (@sendNotification h "Person" (Some 0%nat) (Some Samples.snapshot)
               None Samples.world0).2 in
  heap Samples.world0 !! 0%nat =
    Some (mkOptions (Some "Front door") (Some "Maybe: Richard") None None) /\
  heap w' !! 0%nat =
    Some (mkOptions (Some "Person - Front door")
            (Some "Walking up holding a package.") None None) /\
  heap w' !! 0%nat <> heap Samples.world0 !! 0%nat.
Proof.
  split; [vm_compute; reflexivity|].
  split; [vm_compute; reflexivity|].
  vm_compute. discriminate.
Qed.

(** Witness for the single forward on surroundings where nothing throws. *)
Lemma sendNotification_single_forward_witness :
  let h := Samples.host_with Samples.convert_ok Samples.chat_richard
             Samples.downstream_ok in
  exists c : Call,
    sent (@sendNotification h "Person" (Some 0%nat) (Some Samples.snapshot)
            None Samples.world0).2 = [c].
Proof.
  intros h.
  destruct (@sendNotification_single_forward h "Person" (Some 0%nat)
              (Some Samples.snapshot) None Samples.world0) as (c & Hc & _).
  - intros mo _. eexists. reflexivity.
  - reflexivity.
  - exists c. exact Hc.
Defined.

(** ** Order of the settings page *)

Example getSettings_sample :
  SettingsOrder.getSettings SettingsOrder.sample_key SettingsOrder.sample_settings
  = [Some 4; Some 5; Some 1; Some 3; Some 2; Some 6; Some 0]%nat.
Proof. vm_compute. reflexivity. Qed.

Section GetSettingsFacts.

Import SettingsOrder.

Variable key : nat -> option string.

Lemma last_with_key_Some (settings : list (option nat)) (k : string)
  (x : option nat) :
  last_with_key key settings k = Some x ->
  exists r, x = Some r /\ truthy (key r) = Some k /\ Some r ∈ settings.
Proof.
  unfold last_with_key. intros Hlast.
  apply last_Some_elem_of, list_elem_of_filter in Hlast as [Hk Hin].
  destruct x as [r|]; [|discriminate]. by exists r.
Qed.

Lemma byKey_lookup (settings : list (option nat)) (m : gmap string nat)
  (k : string) :
  foldl (byKey_set key) m settings !! k =
  match last_with_key key settings k with
  | Some (Some r) => Some r
  | _ => m !! k
  end.
Proof.
  revert m. induction settings as [|s l IH]; intros m; [done|].
  simpl. rewrite IH. unfold last_with_key. rewrite filter_cons.
  destruct (decide (truthy (chain s key) = Some k)) as [Hs|Hs].
  - rewrite last_cons.
    destruct (last (filter _ l)) as [[r|]|] eqn:Hl; [done| |].
    + apply last_Some_elem_of, list_elem_of_filter in Hl as [Hk _]. discriminate.
    + destruct s as [r|]; [|discriminate]. simpl in *.
      rewrite Hs. apply lookup_insert_eq.
  - destruct (last (filter _ l)) as [[r|]|]; [done| |].
    + destruct s as [r|]; simpl in *; [|done].
      destruct (truthy (key r)) as [k'|]; [|done].
      apply lookup_insert_ne. congruence.
    + destruct s as [r|]; simpl in *; [|done].
      destruct (truthy (key r)) as [k'|]; [|done].
      apply lookup_insert_ne. congruence.
Qed.

Lemma push_found_loop (byKey : gmap string nat) (keys : list string)
  (acc : list (option nat)) :
  foldl (push_found byKey) acc keys =
  (acc ++ omap (fun k => Some <$> byKey !! k) keys)%list.
Proof.
  revert acc. induction keys as [|k ks IH]; intros acc; simpl.
  - by rewrite app_nil_r.
  - rewrite IH. unfold push_found, push.
    destruct (byKey !! k); simpl; [by rewrite <- app_assoc | done].
Qed.

Lemma found_settings (settings : list (option nat)) :
  foldl (push_found (foldl (byKey_set key) ∅ settings)) [] orderedKeys =
  omap (last_with_key key settings) orderedKeys.
Proof.
  rewrite push_found_loop. simpl.
  rewrite !byKey_lookup.
  repeat match goal with
  | |- context [last_with_key key settings ?k] =>
      let H := fresh in
      destruct (last_with_key key settings k) as [[?|]|] eqn:H;
      [| apply last_with_key_Some in H as (? & ? & _); discriminate |]
  end; reflexivity.
Qed.

Lemma push_leftover_elem (l acc : list (option nat)) (x : option nat) :
  x ∈ foldl push_leftover acc l <-> x ∈ acc \/ x ∈ l.
Proof.
  revert acc. induction l as [|s l IH]; intros acc; simpl.
  - rewrite elem_of_nil. tauto.
  - rewrite IH, elem_of_cons. unfold push_leftover, push.
    case_bool_decide as Hs.
    + split; [tauto|]. intros [?|[->|?]]; tauto.
    + rewrite elem_of_app, list_elem_of_singleton. tauto.
Qed.

Lemma push_leftover_NoDup (l acc : list (option nat)) :
  NoDup acc -> NoDup (foldl push_leftover acc l).
Proof.
  revert acc. induction l as [|s l IH]; intros acc Hacc; simpl; [done|].
  apply IH. unfold push_leftover, push. case_bool_decide as Hs; [done|].
  apply NoDup_app. split; [done|]. split; [|apply NoDup_singleton].
  intros x Hx ->%list_elem_of_singleton. done.
Qed.

Lemma filter_ext_elem {A : Type} (P Q : A -> Prop)
  `{!forall x, Decision (P x), !forall x, Decision (Q x)} (l : list A) :
  (forall x, x ∈ l -> P x <-> Q x) -> filter P l = filter Q l.
Proof.
  induction l as [|a l IH]; intros Hext; [done|].
  rewrite !filter_cons.
  rewrite IH by (intros x Hx; apply Hext; by right).
  destruct (decide (P a)) as [Hp|Hp].
  - rewrite decide_True; [done|]. apply Hext; [by left | done].
  - rewrite decide_False; [done|]. intros Hq. apply Hp, Hext; [by left | done].
Qed.

Lemma push_leftover_filter (l acc : list (option nat)) :
  NoDup l ->
  foldl push_leftover acc l = (acc ++ filter (fun s => s ∉ acc) l)%list.
Proof.
  revert acc. induction l as [|s l IH]; intros acc Hl; simpl.
  - by rewrite app_nil_r.
  - apply NoDup_cons in Hl as [Hs Hl]. rewrite IH by done.
    unfold push_leftover, push. rewrite filter_cons.
    case_bool_decide as Hin.
    + rewrite decide_False by tauto. done.
    + rewrite decide_True by done. rewrite <- app_assoc. simpl. do 2 f_equal.
      apply filter_ext_elem. intros x Hx.
      rewrite elem_of_app, list_elem_of_singleton.
      split; [tauto|]. intros Hacc [? | ->]; tauto.
Qed.

Lemma found_NoDup (settings : list (option nat)) :
  NoDup (omap (last_with_key key settings) orderedKeys).
Proof.
  assert (Hinj : forall k1 k2 x,
            last_with_key key settings k1 = Some x ->
            last_with_key key settings k2 = Some x -> k1 = k2).
  { intros k1 k2 x H1 H2.
    apply last_with_key_Some in H1 as (r1 & -> & Hk1 & _).
    apply last_with_key_Some in H2 as (r2 & [= <-] & Hk2 & _). congruence. }
  assert (Hkeys : NoDup orderedKeys).
  { apply (bool_decide_unpack _). vm_compute. exact I. }
  revert Hkeys. generalize orderedKeys as keys.
  induction keys as [|k ks IH]; intros Hnd; simpl; [apply NoDup_nil_2|].
  apply NoDup_cons in Hnd as [Hk Hks].
  destruct (last_with_key key settings k) as [x|] eqn:Hx; [|by apply IH].
  apply NoDup_cons. split; [|by apply IH].
  intros Hin. apply list_elem_of_omap in Hin as (k' & Hk' & Hx').
  by rewrite (Hinj k k' x Hx Hx') in Hk.
Qed.

Lemma found_elem (settings : list (option nat)) (x : option nat) :
  x ∈ omap (last_with_key key settings) orderedKeys -> x ∈ settings.
Proof.
  intros (k & _ & Hx)%list_elem_of_omap.
  by apply last_with_key_Some in Hx as (r & -> & _ & Hin).
Qed.

(** [getSettings] keeps the entries: what it returns has exactly the
    entries it was given, each of them once. *)
Theorem getSettings_keeps_entries (settings : list (option nat)) :
  (forall s, s ∈ getSettings key settings <-> s ∈ settings) /\
  NoDup (getSettings key settings).
Proof.
  unfold getSettings. rewrite found_settings. split.
  - intros s. rewrite push_leftover_elem. split; [|tauto].
    intros [Hs|Hs]; [by apply found_elem | done].
  - apply push_leftover_NoDup, found_NoDup.
Qed.

(** Given distinct entries, [getSettings] returns a rearrangement of
    them. *)
Theorem getSettings_permutation (settings : list (option nat)) :
  NoDup settings -> getSettings key settings ≡ₚ settings.
Proof.
  intros Hnd. unfold getSettings. rewrite found_settings.
  apply NoDup_Permutation; [apply push_leftover_NoDup, found_NoDup | done |].
  intros s. rewrite push_leftover_elem. split; [|tauto].
  intros [Hs|Hs]; [by apply found_elem | done].
Qed.

(** Given distinct entries, [getSettings] returns first, for each of the six
    known keys in their fixed order, the last entry that has this key, and
    then all other entries in the order they came in. *)
Theorem getSettings_order (settings : list (option nat)) :
  NoDup settings ->
  let known := omap (last_with_key key settings) orderedKeys in
  getSettings key settings = (known ++ filter (fun s => s ∉ known) settings)%list /\
  Forall2 (fun s k => truthy (chain s key) = Some k) known
    (filter (fun k => is_Some (last_with_key key settings k)) orderedKeys).
Proof.
  intros Hnd known. split.
  - unfold getSettings. rewrite found_settings. by apply push_leftover_filter.
  - subst known. induction orderedKeys as [|k ks IH]; simpl; [constructor|].
    rewrite filter_cons.
    destruct (last_with_key key settings k) as [x|] eqn:Hx.
    + rewrite decide_True by done. constructor; [|exact IH].
      by apply last_with_key_Some in Hx as (r & -> & Hk & _).
    + rewrite decide_False by (by intros [? ?]). exact IH.
Qed.

End GetSettingsFacts.

(** Witness: the seven sample settings. *)
Lemma getSettings_permutation_witness :
  SettingsOrder.getSettings SettingsOrder.sample_key SettingsOrder.sample_settings
  ≡ₚ SettingsOrder.sample_settings.
Proof.
  apply getSettings_permutation.
  apply (bool_decide_unpack _). vm_compute. exact I.
Defined.

Lemma getSettings_order_witness :
  SettingsOrder.getSettings SettingsOrder.sample_key SettingsOrder.sample_settings
  = ([Some 4; Some 5; Some 1; Some 3; Some 2; Some 6] ++ [Some 0])%nat%list.
Proof.
  destruct (getSettings_order SettingsOrder.sample_key SettingsOrder.sample_settings)
    as [Heq _].
  - apply (bool_decide_unpack _). vm_compute. exact I.
  - rewrite Heq. vm_compute. reflexivity.
Defined.

(** ** More on the resizer *)

Lemma load_of_nat (l : list byte) (i : nat) : load l (Z.of_nat i) = l !! i.
Proof.
  unfold load. destruct (Z.ltb_spec (Z.of_nat i) 0); [lia|]. by rewrite Nat2Z.id.
Qed.

(** Once the loops are done the buffer is fixed by the source image alone. *)
Lemma done_upto_unique (src : list byte) (sw sh dw dh : Z) (len : nat)
  (out1 out2 : list byte) :
  0 <= dw -> 0 < dh -> Z.of_nat len = 4 * dw * dh ->
  done_upto src sw sh dw dh len (dh * dw) out1 ->
  done_upto src sw sh dw dh len (dh * dw) out2 ->
  out1 = out2.
Proof.
  intros Hdw Hdh Hlen [Hl1 H1] [Hl2 H2]. apply list_eq. intros i.
  destruct (decide (i < len)%nat) as [Hi|Hi].
  - assert (0 < dw) by nia.
    set (p := Z.of_nat i / 4). set (c := Z.of_nat i mod 4).
    assert (Hic : Z.of_nat i = 4 * p + c) by (subst p c; apply Z.div_mod; lia).
    assert (Hc : 0 <= c < 4) by (subst c; apply Z.mod_pos_bound; lia).
    assert (Hp : 0 <= p < dh * dw).
    { subst p. split; [apply Z.div_pos; lia | apply Z.div_lt_upper_bound; lia]. }
    assert (Hpx : p = (p / dw) * dw + p mod dw).
    { rewrite Z.mul_comm. apply Z.div_mod. lia. }
    assert (Hx : 0 <= p mod dw < dw) by (apply Z.mod_pos_bound; lia).
    assert (Hy : 0 <= p / dw) by (apply Z.div_pos; lia).
    rewrite <- !load_of_nat, Hic, Hpx.
    rewrite H1, H2 by (try lia; rewrite <- Hpx; lia). reflexivity.
  - rewrite !lookup_ge_None_2 by lia. reflexivity.
Qed.

Section ImageCodecMore.

Context `{Codec}.

(** The resized image is never taller than the source, and unless the
    height was raised to 1 it is within half a pixel of the height that
    keeps the aspect ratio: [|dh - sh * w / sw| <= 1/2]. *)
Theorem resizeJpegNearest_aspect (input : Buffer) (w quality : Z)
  (img : RawImage) :
  jpeg_decode input = inr img ->
  0 < height img ->
  0 <= w < width img ->
  exists out : RawImage,
    resizeJpegNearest input w quality = jpeg_encode out quality /\
    width out = w /\
    1 <= height out <= height img /\
    (width img <= 2 * height img * w ->
     2 * Z.abs (height out * width img - height img * w) <= width img).
Proof.
  intros Hdec Hsh Hw.
  unfold resizeJpegNearest. rewrite Hdec.
  destruct (Z.eqb_spec (width img) 0); [lia|].
  destruct (Z.eqb_spec (height img) 0); [lia|]. simpl.
  rewrite Z.min_l by lia.
  destruct (Z.eqb_spec w (width img)); [lia|].
  pose proof (round_div_nearest (height img * w) (width img) ltac:(lia)) as Hr.
  set (r := round_div (height img * w) (width img)) in *.
  assert (Hrle : r <= height img) by nia.
  unfold allocUnsafe. destruct (Z.ltb_spec (w * Z.max 1 r * 4) 0); [nia|].
  eexists (mkRawImage _ w (Z.max 1 r)). split; [reflexivity|]. simpl.
  split; [done|]. split; [lia|].
  intros Hbig. assert (1 <= r) by nia. rewrite Z.max_r by lia. lia.
Qed.

(** What was in the memory handed out by [Buffer.allocUnsafe] never shows
    in the result: every byte of the buffer is written before it is
    encoded. *)
Theorem resizeJpegNearest_ignores_garbage (garbage : nat -> byte)
  (input : Buffer) (w quality : Z) (img : RawImage) :
  jpeg_decode input = inr img ->
  0 <= w ->
  0 <= height img ->
  4 * width img * height img < 2 ^ 31 ->
  @resizeJpegNearest (with_garbage garbage H) input w quality =
  resizeJpegNearest input w quality.
Proof.
  intros Hdec Hw Hsh Hsrc.
  unfold resizeJpegNearest. simpl. rewrite Hdec.
  destruct (Z.eqb_spec (width img) 0); [done|].
  destruct (Z.eqb_spec (height img) 0); [done|]. simpl.
  destruct (Z.eqb_spec (Z.min w (width img)) (width img)); [done|].
  assert (Hlt : w < width img) by lia. rewrite Z.min_l by lia.
  pose proof (round_div_nearest (height img * w) (width img) ltac:(lia)) as Hr.
  set (dh := Z.max 1 (round_div (height img * w) (width img))).
  assert (Hdh : 1 <= dh <= height img) by (subst dh; nia).
  unfold allocUnsafe. simpl.
  destruct (Z.ltb_spec (w * dh * 4) 0); [nia|].
  f_equal. f_equal.
  set (len := Z.to_nat (w * dh * 4)).
  assert (Hn : Z.of_nat len = 4 * w * dh) by lia.
  apply (done_upto_unique (data img) (width img) (height img) w dh len);
    [lia | lia | lia | |].
  - replace len with (length (map garbage (seq 0 len))) at 1
      by (by rewrite length_map, length_seq).
    apply resize_loops_done; rewrite ?length_map, ?length_seq; nia.
  - replace len with (length (map allocUnsafe_garbage (seq 0 len))) at 1
      by (by rewrite length_map, length_seq).
    apply resize_loops_done; rewrite ?length_map, ?length_seq; nia.
Qed.

(** The full frame as [sendNotification] resizes it (lines 197-206): a
    frame up to 800 pixels wide is passed on byte for byte; a wider one is
    encoded again at width 384 (up to 1500), 512 (up to 3000) or 640, with
    the height that goes with it. *)
Theorem full_frame_width_policy (fullBuf : Buffer) (sw sh : Z) :
  getJpegDimensions fullBuf = inr (sw, sh) ->
  0 < sw -> 0 < sh ->
  let dw := Z.min (targetWidthFor sw) sw in
  (sw <= 800 -> resizeJpegNearest fullBuf dw 60 = inr fullBuf) /\
  (800 < sw ->
   exists out : RawImage,
     resizeJpegNearest fullBuf dw 60 = jpeg_encode out 60 /\
     width out = (if 3000 <? sw then 640 else if 1500 <? sw then 512 else 384) /\
     width out < sw /\
     height out = Z.max 1 (round_div (sh * width out) sw)).
Proof.
  intros Hdim Hsw Hsh dw. unfold getJpegDimensions in Hdim.
  destruct (jpeg_decode fullBuf) as [e|img] eqn:Hdec; [discriminate|].
  injection Hdim as <- <-.
  unfold resizeJpegNearest. rewrite Hdec.
  destruct (Z.eqb_spec (width img) 0); [lia|].
  destruct (Z.eqb_spec (height img) 0); [lia|]. simpl.
  assert (Hdw : dw = if 3000 <? width img then 640
                     else if 1500 <? width img then 512
                     else if 800 <? width img then 384 else width img).
  { subst dw. unfold targetWidthFor.
    repeat match goal with |- context [?a <? ?b] =>
      destruct (Z.ltb_spec a b) end; lia. }
  split.
  - intros Hsmall. rewrite Z.min_l by lia.
    destruct (Z.eqb_spec dw (width img)) as [|Hne]; [done|].
    exfalso. apply Hne. rewrite Hdw.
    repeat match goal with |- context [?a <? ?b] =>
      destruct (Z.ltb_spec a b) end; lia.
  - intros Hbig.
    assert (Hlt : 0 < dw < width img).
    { rewrite Hdw.
      repeat match goal with |- context [?a <? ?b] =>
        destruct (Z.ltb_spec a b) end; lia. }
    rewrite Z.min_l by lia.
    destruct (Z.eqb_spec dw (width img)); [lia|].
    unfold allocUnsafe.
    destruct (Z.ltb_spec (dw * Z.max 1 (round_div (height img * dw) (width img)) * 4) 0);
      [nia|].
    eexists (mkRawImage _ dw _). split; [reflexivity|]. simpl.
    split; [|split; [lia | reflexivity]].
    rewrite Hdw. destruct (Z.ltb_spec 3000 (width img)); [done|].
    destruct (Z.ltb_spec 1500 (width img)); [done|].
    destruct (Z.ltb_spec 800 (width img)); [done | lia].
Qed.

End ImageCodecMore.

(** Witness: the sample resized from width 4 to width 2 has height 1. *)
Lemma resizeJpegNearest_aspect_witness :
  exists out : RawImage,
    @resizeJpegNearest raw_codec sample_4x2 2 60 = inr (data out) /\
    width out = 2 /\ 1 <= height out <= 2.
Proof.
  destruct (@resizeJpegNearest_aspect raw_codec sample_4x2 2 60
              (mkRawImage sample_4x2 4 2)) as (out & Hres & Hw & Hh & _).
  - reflexivity.
  - simpl. lia.
  - simpl. lia.
  - exists out. split; [exact Hres|]. split; [exact Hw | exact Hh].
Defined.

(** Witness: fresh memory full of zeros instead of [x2a]. *)
Lemma resizeJpegNearest_ignores_garbage_witness :
  @resizeJpegNearest (with_garbage (fun _ => Byte.x00) raw_codec) sample_4x2 2 60 =
  @resizeJpegNearest raw_codec sample_4x2 2 60.
Proof.
  apply (@resizeJpegNearest_ignores_garbage raw_codec (fun _ => Byte.x00)
           sample_4x2 2 60 (mkRawImage sample_4x2 4 2)).
  - reflexivity.
  - lia.
  - simpl. lia.
  - simpl. lia.
Defined.

(** Witness: the 4 x 2 sample is narrower than 800 pixels and is passed on
    as it is. *)
Lemma full_frame_width_policy_witness :
  @resizeJpegNearest raw_codec sample_4x2 (Z.min (targetWidthFor 4) 4) 60
  = inr sample_4x2.
Proof.
  destruct (@full_frame_width_policy raw_codec sample_4x2 4 2) as [Hsmall _].
  - reflexivity.
  - lia.
  - lia.
  - apply Hsmall. lia.
Defined.

(** ** More on the snapshot list *)

Lemma truthy_Some (o : option string) (u : string) :
  truthy o = Some u -> o = Some u /\ u <> EmptyString.
Proof.
  destruct o as [[|a s]|]; simpl; intros Heq; try discriminate.
  injection Heq as Heq. subst u. by split.
Qed.

(** The snapshot list is empty exactly when both images are missing; it
    has at most two entries, and each entry is one of the two images and
    is not the empty string. *)
Theorem buildImageList_contents (mode : string) (full cropped : option string) :
  (buildImageList mode full cropped = [] <->
   truthy full = None /\ truthy cropped = None) /\
  (length (buildImageList mode full cropped) <= 2)%nat /\
  (forall u, u ∈ buildImageList mode full cropped ->
     u <> EmptyString /\ (full = Some u \/ cropped = Some u)).
Proof.
  unfold buildImageList, push.
  destruct (truthy full) as [f|] eqn:Hf, (truthy cropped) as [c|] eqn:Hc;
    try apply truthy_Some in Hf as [-> Hf'];
    try apply truthy_Some in Hc as [-> Hc'];
    destruct (String.eqb mode "both"), (String.eqb mode "full"); simpl;
    (split; [split; [try discriminate; by intros _ | by intros [? ?]]|]);
    (split; [lia|]); intros u Hu;
    repeat (apply elem_of_cons in Hu as [->|Hu]; [by auto|]);
    by apply elem_of_nil in Hu.
Qed.

Section SnapshotList.

Context `{Host}.

Lemma dataUrl_nonempty (buffer : Buffer) : dataUrl buffer <> EmptyString.
Proof. unfold dataUrl. discriminate. Qed.

(** A list of images built around an image that is a non-empty string or a
    data URL is not empty, whatever the mode and the full frame, and that
    image is its last entry, except in mode 'full' when there is a full
    frame. *)
Lemma snapshot_list_never_empty (media : option Media) (m : Media)
  (mode imageUrl : string) (fullFrameUrl : option string) :
  truthy_media media = Some m ->
  m = MediaString imageUrl \/ (exists buffer, imageUrl = dataUrl buffer) ->
  buildImageList mode fullFrameUrl (Some imageUrl) <> [] /\
  (String.eqb mode "full" = false \/ truthy fullFrameUrl = None ->
   last (buildImageList mode fullFrameUrl (Some imageUrl)) = Some imageUrl).
Proof.
  intros Hm Hurl.
  assert (Hne : truthy (Some imageUrl) = Some imageUrl).
  { destruct Hurl as [->|[b ->]].
    - destruct media as [[s|mo]|]; simpl in Hm; try discriminate.
      destruct s; simpl in Hm; [discriminate|]. by injection Hm as <-.
    - reflexivity. }
  unfold buildImageList, push. rewrite Hne.
  destruct (String.eqb mode "both"), (String.eqb mode "full"),
    (truthy fullFrameUrl); simpl; (split; [discriminate|]);
    try (intros _; reflexivity); intros [?|?]; discriminate.
Qed.

End SnapshotList.

(** ** The provider pool during a notification *)

Section PoolTurns.

Context `{Host}.

Lemma same_pool_refl (f : Frame) : same_pool f f.
Proof. by repeat split. Qed.

Lemma same_pool_trans (f1 f2 f3 : Frame) :
  same_pool f1 f2 -> same_pool f2 f3 -> same_pool f1 f3.
Proof. intros (A1 & A2 & A3) (B1 & B2 & B3). repeat split; congruence. Qed.

Lemma pool_step_after (f1 f2 f3 : Frame) :
  same_pool f1 f2 -> pool_step f2 f3 -> pool_step f1 f3.
Proof.
  intros (A1 & A2 & A3) [Hs|(ids & Hids & Hne & B1 & B2 & B3)].
  - left. eapply same_pool_trans; [|exact Hs]. by repeat split.
  - right. exists ids. repeat split; congruence.
Qed.

Lemma pool_step_before (f1 f2 f3 : Frame) :
  pool_step f1 f2 -> same_pool f2 f3 -> pool_step f1 f3.
Proof.
  intros [Hs|(ids & Hids & Hne & B1 & B2 & B3)] (A1 & A2 & A3).
  - left. eapply same_pool_trans; [exact Hs | by repeat split].
  - right. exists ids. repeat split; congruence.
Qed.

Lemma idle_ret {A : Type} (a : A) : idle (ret a).
Proof. intros f. apply same_pool_refl. Qed.

Lemma idle_throw {A : Type} (e : Exn) : idle (@throw Frame A e).
Proof. intros f. apply same_pool_refl. Qed.

Lemma idle_gets {A : Type} (g : Frame -> A) : idle (gets g).
Proof. intros f. apply same_pool_refl. Qed.

Lemma idle_lift {A : Type} (r : Result A) : idle (@lift Frame A r).
Proof. intros f. apply same_pool_refl. Qed.

Lemma idle_bind {A B : Type} (c : M Frame A) (k : A -> M Frame B) :
  idle c -> (forall a, idle (k a)) -> idle (bind c k).
Proof.
  intros Hc Hk f. unfold bind. specialize (Hc f).
  destruct (c f) as [[e|a] f1]; simpl in *; [done|].
  eapply same_pool_trans; [exact Hc | apply Hk].
Qed.

Lemma idle_try_catch {A : Type} (c : M Frame A) (h : Exn -> M Frame A) :
  idle c -> (forall e, idle (h e)) -> idle (try_catch c h).
Proof.
  intros Hc Hh f. unfold try_catch. specialize (Hc f).
  destruct (c f) as [[e|a] f1]; simpl in *; [|done].
  eapply same_pool_trans; [exact Hc | apply Hh].
Qed.

Lemma idle_await {A : Type} (g : nat -> Result A) : idle (in_world (await g)).
Proof. intros f. by repeat split. Qed.

Lemma idle_forward (title : string) (media icon : option Media) :
  idle (forward title media icon).
Proof. intros f. by repeat split. Qed.

Lemma idle_update_stats (g : Stats -> Stats) : idle (update_stats g).
Proof. intros f. by repeat split. Qed.

Lemma idle_options_or_assign_empty : idle options_or_assign_empty.
Proof.
  intros f. unfold options_or_assign_empty.
  destruct (options_var f); by repeat split.
Qed.

Lemma idle_options_assign (newBody newSubtitle : string) :
  idle (options_assign newBody newSubtitle).
Proof.
  intros f. unfold options_assign. destruct (options_var f); by repeat split.
Qed.

Ltac idle_step :=
  lazymatch goal with
  | |- idle (bind _ _) => apply idle_bind; [|intros ?]
  | |- idle (try_catch _ _) => apply idle_try_catch; [|intros ?]
  | |- idle (ret _) => apply idle_ret
  | |- idle (throw _) => apply idle_throw
  | |- idle (gets _) => apply idle_gets
  | |- idle (lift _) => apply idle_lift
  | |- idle (in_world (await _)) => apply idle_await
  | |- idle (forward _ _ _) => apply idle_forward
  | |- idle (update_stats _) => apply idle_update_stats
  | |- idle options_or_assign_empty => apply idle_options_or_assign_empty
  | |- idle (options_assign _ _) => apply idle_options_assign
  | |- idle (match ?x with _ => _ end) => destruct x
  | |- idle (let _ := _ in _) => cbv zeta
  end.

Lemma idle_fetchFullFrame (m : Media) : idle (fetchFullFrame m).
Proof. unfold fetchFullFrame. repeat idle_step. Qed.

Lemma idle_one_turn {A : Type} (c : M Frame A) : idle c -> one_turn c.
Proof. intros Hc f. left. apply Hc. Qed.

Lemma one_turn_bind_l {A B : Type} (c : M Frame A) (k : A -> M Frame B) :
  idle c -> (forall a, one_turn (k a)) -> one_turn (bind c k).
Proof.
  intros Hc Hk f. unfold bind. specialize (Hc f).
  destruct (c f) as [[e|a] f1]; simpl in *; [by left|].
  eapply pool_step_after; [exact Hc | apply Hk].
Qed.

Lemma one_turn_bind_r {A B : Type} (c : M Frame A) (k : A -> M Frame B) :
  one_turn c -> (forall a, idle (k a)) -> one_turn (bind c k).
Proof.
  intros Hc Hk f. unfold bind. specialize (Hc f).
  destruct (c f) as [[e|a] f1]; simpl in *; [done|].
  eapply pool_step_before; [exact Hc | apply Hk].
Qed.

Lemma one_turn_try_catch {A : Type} (c : M Frame A) (h : Exn -> M Frame A) :
  one_turn c -> (forall e, idle (h e)) -> one_turn (try_catch c h).
Proof.
  intros Hc Hh f. unfold try_catch. specialize (Hc f).
  destruct (c f) as [[e|a] f1]; simpl in *; [|done].
  eapply pool_step_before; [exact Hc | apply Hh].
Qed.

Lemma in_world_selectProvider_nonempty (ids : list string) (f : Frame) :
  chatCompletions (values (world f)) = Some ids ->
  ids <> [] ->
  in_world selectProvider f =
  (inr (chain (ids !! currentProviderIndex (world f)) getDeviceById),
   set_world
     (set_cursor ((currentProviderIndex (world f) + 1) mod length ids)%nat
        (log_read (currentProviderIndex (world f)) (world f))) f).
Proof.
  intros Hids Hne. unfold in_world, zoom.
  by rewrite (selectProvider_nonempty ids (world f) Hids Hne).
Qed.

Lemma in_world_selectProvider_empty (f : Frame) :
  chatCompletions (values (world f)) = None \/
  chatCompletions (values (world f)) = Some [] ->
  in_world selectProvider f = (inl (Error "No LLM providers selected"), f).
Proof.
  intros Hids. unfold in_world, zoom, selectProvider, bind, gets, throw.
  destruct f as [w o]. simpl in *. by destruct Hids as [-> | ->].
Qed.

Lemma one_turn_selectProvider : one_turn (in_world selectProvider).
Proof.
  intros f.
  destruct (chatCompletions (values (world f))) as [[|p ps]|] eqn:Hids.
  - rewrite in_world_selectProvider_empty by auto. left. apply same_pool_refl.
  - rewrite (in_world_selectProvider_nonempty (p :: ps)) by done.
    right. exists (p :: ps). by repeat split.
  - rewrite in_world_selectProvider_empty by auto. left. apply same_pool_refl.
Qed.

(** [requestEnhancement] is the selection followed by steps that leave the
    pool alone. *)
Lemma requestEnhancement_tail_idle (t : MessageTemplate) :
  exists k : option Device -> M Frame (string * string * string),
    requestEnhancement t = bind (in_world selectProvider) k /\
    forall d, idle (k d).
Proof.
  eexists. split; [reflexivity|]. intros d. cbv beta. repeat idle_step.
Qed.

Lemma one_turn_requestEnhancement (t : MessageTemplate) :
  one_turn (requestEnhancement t).
Proof.
  destruct (requestEnhancement_tail_idle t) as (k & -> & Hk).
  apply one_turn_bind_r; [apply one_turn_selectProvider | exact Hk].
Qed.

Lemma one_turn_enhance (title : string) (media icon : option Media)
  (t : MessageTemplate) : one_turn (enhance title media icon t).
Proof.
  unfold enhance. apply one_turn_try_catch; [|intros; apply idle_forward].
  apply one_turn_bind_r; [apply one_turn_requestEnhancement|].
  intros [[nt ns] nb]. repeat idle_step.
Qed.

Lemma one_turn_sendNotification_body (title : string)
  (media icon : option Media) : one_turn (sendNotification_body title media icon).
Proof.
  unfold sendNotification_body.
  apply one_turn_bind_l; [apply idle_update_stats | intros _].
  apply one_turn_bind_l; [apply idle_gets | intros v].
  destruct (truthy_media media) as [m|];
    [|apply idle_one_turn; repeat idle_step].
  destruct (enabled v); [|apply idle_one_turn; repeat idle_step].
  apply one_turn_bind_l; [apply idle_update_stats | intros _].
  apply one_turn_bind_l; [destruct m; repeat idle_step | intros imageUrl].
  apply one_turn_bind_l.
  { apply idle_try_catch; [apply idle_fetchFullFrame | intros; apply idle_ret]. }
  intros fullFrameUrl.
  apply one_turn_bind_l; [apply idle_gets | intros options].
  cbv zeta. destruct (buildImageList _ _ _).
  - apply idle_one_turn, idle_forward.
  - apply one_turn_enhance.
Qed.

Lemma sendNotification_provider_turn_aux (title : string)
  (options : option nat) (media icon : option Media) (w : World) :
  values (sendNotification title options media icon w).2 = values w /\
  ((currentProviderIndex (sendNotification title options media icon w).2
      = currentProviderIndex w /\
    provider_reads (sendNotification title options media icon w).2
      = provider_reads w)
   \/
   (exists ids : list string,
      chatCompletions (values w) = Some ids /\ ids <> [] /\
      currentProviderIndex (sendNotification title options media icon w).2
        = ((currentProviderIndex w + 1) mod length ids)%nat /\
      provider_reads (sendNotification title options media icon w).2
        = (provider_reads w ++ [currentProviderIndex w])%list)).
Proof.
  pose proof (one_turn_sendNotification_body title media icon (mkFrame w options))
    as Hstep.
  unfold sendNotification.
  destruct (sendNotification_body title media icon (mkFrame w options)) as [r f'].
  simpl in *.
  destruct Hstep as [(A1 & A2 & A3)|(ids & Hids & Hne & B1 & B2 & B3)].
  - split; [done|]. by left.
  - split; [done|]. right. by exists ids.
Qed.

(** One notification takes at most one provider turn: either the cursor
    and the reads of the provider list are as before, or the list, which is
    not empty, was read once at the cursor and the cursor moved on by one
    modulo its length.  The settings are never written. *)
Theorem sendNotification_provider_turn (title : string) (options : option nat)
  (media icon : option Media) (w : World) :
  let w' := (sendNotification title options media icon w).2 in
  values w' = values w /\
  ((currentProviderIndex w' = currentProviderIndex w /\
    provider_reads w' = provider_reads w)
   \/
   (exists ids : list string,
      chatCompletions (values w) = Some ids /\ ids <> [] /\
      currentProviderIndex w' = ((currentProviderIndex w + 1) mod length ids)%nat /\
      provider_reads w' = (provider_reads w ++ [currentProviderIndex w])%list)).
Proof. apply sendNotification_provider_turn_aux. Qed.

(** With a fixed provider list and the cursor inside it, any sequence of
    notifications leaves the cursor inside the list and the settings as
    they were, and reads the list at most once per notification. *)
Lemma run_pool (ids : list string) (calls : list Inbound) (w : World) :
  chatCompletions (values w) = Some ids ->
  (currentProviderIndex w < length ids)%nat ->
  (currentProviderIndex (run calls w) < length ids)%nat /\
  values (run calls w) = values w /\
  (length (provider_reads (run calls w)) <=
   length (provider_reads w) + length calls)%nat.
Proof.
  revert w. induction calls as [|c rest IH]; intros w Hids Hc; simpl.
  - split; [done|]. split; [done|]. lia.
  - pose proof (sendNotification_provider_turn_aux (in_title c) (in_options c)
                  (in_media c) (in_icon c) w) as [Hv Hturn].
    set (w1 := (sendNotification (in_title c) (in_options c) (in_media c)
                  (in_icon c) w).2) in *.
    assert (Hc1 : (currentProviderIndex w1 < length ids)%nat /\
                  (length (provider_reads w1) <= S (length (provider_reads w)))%nat).
    { destruct Hturn as [[-> ->]|(ids' & Hids' & Hne & -> & ->)]; [lia|].
      assert (ids' = ids) by congruence. subst ids'.
      split; [apply Nat.mod_upper_bound; lia|].
      rewrite length_app. simpl. lia. }
    destruct (IH w1) as (I1 & I2 & I3); [congruence | tauto |].
    split; [done|]. split; [congruence|]. lia.
Qed.

End PoolTurns.

(** ** The request to the provider *)

Section EnhancementMore.

Context `{Host}.

(** The steps of [requestEnhancement] behind a returned triple. *)
Lemma requestEnhancement_validated (t : MessageTemplate) (f f' : Frame)
  (newTitle newSubtitle newBody : string) :
  requestEnhancement t f = (inr (newTitle, newSubtitle, newBody), f') ->
  exists ids pid dev data content json,
    chatCompletions (values (world f)) = Some ids /\
    ids !! currentProviderIndex (world f) = Some pid /\
    getDeviceById pid = Some dev /\
    getChatCompletion (clock (world f)) dev t (llmTimeout (values (world f)))
      = Fulfilled data /\
    head (choices data) = Some (Some content) /\
    content <> EmptyString /\
    JSON_parse content = inr json /\
    prop json "title" = Some (JString newTitle) /\
    prop json "subtitle" = Some (JString newSubtitle) /\
    prop json "body" = Some (JString newBody).
Proof.
  intros Hreq. unfold requestEnhancement in Hreq. unfold bind at 1 in Hreq.
  destruct (chatCompletions (values (world f))) as [[|p ps]|] eqn:Hids;
    [rewrite in_world_selectProvider_empty in Hreq by auto; discriminate | |
     rewrite in_world_selectProvider_empty in Hreq by auto; discriminate].
  rewrite (in_world_selectProvider_nonempty (p :: ps)) in Hreq by done.
  unfold bind at 1, gets at 1 in Hreq. cbn [world values set_world set_cursor log_read] in Hreq.
  destruct ((p :: ps) !! currentProviderIndex (world f)) as [pid|] eqn:Hpid;
    [|discriminate].
  cbn [chain] in Hreq.
  destruct (getDeviceById pid) as [dev|] eqn:Hdev; [|discriminate].
  unfold bind at 1, in_world at 1, zoom, await at 1 in Hreq.
  cbn [world clock set_world set_cursor log_read] in Hreq.
  destruct (getChatCompletion (clock (world f)) dev t (llmTimeout (values (world f))))
    as [data|e|] eqn:Hchat; cbn [withTimeout] in Hreq; [|discriminate..].
  unfold bind at 1 in Hreq.
  destruct (choices data) as [|c cs] eqn:Hchoices; [discriminate|].
  unfold ret at 1 in Hreq.
  destruct (truthy c) as [content|] eqn:Hcontent; [|discriminate].
  apply truthy_Some in Hcontent as [-> Hne].
  unfold bind at 1, lift at 1 in Hreq.
  destruct (JSON_parse content) as [e|json] eqn:Hparse; [discriminate|].
  exists (p :: ps), pid, dev, data, content, json.
  rewrite Hchoices. do 7 (split; [done|]).
  destruct json; try discriminate;
    destruct (prop _ "title") as [[]|]; try discriminate;
    destruct (prop _ "subtitle") as [[]|]; try discriminate;
    destruct (prop _ "body") as [[]|]; try discriminate;
    by injection Hreq as -> -> -> _.
Qed.

(** [requestEnhancement] returns a triple only for a validated response:
    the provider list has an entry at the cursor, the registry knows that
    device, its call was fulfilled before the timer fired, the content of
    its first choice is a non-empty text that [JSON.parse] accepts, and the
    parsed value has strings under title, subtitle and body, which are the
    triple.  Nothing is said about their lengths: they are not checked. *)
Theorem requestEnhancement_sound (t : MessageTemplate) (f f' : Frame)
  (newTitle newSubtitle newBody : string) :
  requestEnhancement t f = (inr (newTitle, newSubtitle, newBody), f') ->
  exists ids pid dev data content json,
    chatCompletions (values (world f)) = Some ids /\
    ids !! currentProviderIndex (world f) = Some pid /\
    getDeviceById pid = Some dev /\
    getChatCompletion (clock (world f)) dev t (llmTimeout (values (world f)))
      = Fulfilled data /\
    head (choices data) = Some (Some content) /\
    content <> EmptyString /\
    JSON_parse content = inr json /\
    prop json "title" = Some (JString newTitle) /\
    prop json "subtitle" = Some (JString newSubtitle) /\
    prop json "body" = Some (JString newBody).
Proof. apply requestEnhancement_validated. Qed.

(** A fulfilled call with a well-formed answer, step by step. *)
Lemma requestEnhancement_fulfilled (t : MessageTemplate) (f : Frame)
  (ids : list string) (pid : string) (dev : Device)
  (data : ChatCompletionData) (content : string) (json : Json)
  (newTitle newSubtitle newBody : string) :
  chatCompletions (values (world f)) = Some ids ->
  ids !! currentProviderIndex (world f) = Some pid ->
  getDeviceById pid = Some dev ->
  getChatCompletion (clock (world f)) dev t (llmTimeout (values (world f)))
    = Fulfilled data ->
  head (choices data) = Some (Some content) ->
  content <> EmptyString ->
  JSON_parse content = inr json ->
  prop json "title" = Some (JString newTitle) ->
  prop json "subtitle" = Some (JString newSubtitle) ->
  prop json "body" = Some (JString newBody) ->
  requestEnhancement t f =
  (inr (newTitle, newSubtitle, newBody),
   set_world
     (tick (set_cursor ((currentProviderIndex (world f) + 1) mod length ids)%nat
              (log_read (currentProviderIndex (world f)) (world f)))) f).
Proof.
  intros Hids Hpid Hdev Hchat Hhead Hne Hparse Ht Hs Hb.
  assert (Hnil : ids <> []) by (intros ->; discriminate).
  unfold requestEnhancement. unfold bind at 1.
  rewrite (in_world_selectProvider_nonempty ids) by done.
  unfold bind at 1, gets at 1.
  cbn [world values set_world set_cursor log_read].
  rewrite Hpid. cbn [chain]. rewrite Hdev.
  unfold bind at 1, in_world at 1, zoom, await at 1.
  cbn [world clock set_world set_cursor log_read]. rewrite Hchat.
  cbn [withTimeout]. unfold bind at 1.
  destruct (choices data) as [|c cs]; [discriminate|].
  injection Hhead as ->. unfold ret at 1.
  assert (Htr : truthy (Some content) = Some content).
  { destruct content; [done | reflexivity]. }
  rewrite Htr. unfold bind at 1, lift at 1. rewrite Hparse.
  destruct json; try discriminate. rewrite Ht, Hs, Hb. reflexivity.
Qed.

(** Whether the call succeeds or fails, a request made with a non-empty
    provider list takes the provider's turn: the list is read once, at the
    cursor, and the cursor moves on by one, staying inside the list.  A
    provider that failed is therefore not asked again for the next
    notification unless it is the only one. *)
Theorem requestEnhancement_takes_turn (t : MessageTemplate) (f : Frame)
  (ids : list string) :
  chatCompletions (values (world f)) = Some ids ->
  ids <> [] ->
  let f' := (requestEnhancement t f).2 in
  currentProviderIndex (world f') =
    ((currentProviderIndex (world f) + 1) mod length ids)%nat /\
  (currentProviderIndex (world f') < length ids)%nat /\
  provider_reads (world f') =
    (provider_reads (world f) ++ [currentProviderIndex (world f)])%list.
Proof.
  intros Hids Hne.
  destruct (requestEnhancement_tail_idle t) as (k & -> & Hk).
  unfold bind. rewrite (in_world_selectProvider_nonempty ids) by done.
  match goal with |- context [k ?d ?fs] => specialize (Hk d fs) end.
  destruct Hk as (K1 & K2 & K3). simpl in *.
  rewrite K1, K2. split; [done|]. split; [|done].
  apply Nat.mod_upper_bound. destruct ids; [done | simpl; lia].
Qed.

(** When there is no device to ask (no provider list, an empty one, a
    cursor past its end, or an identifier the registry does not know), the
    request fails at once: no provider is called and nothing is sent. *)
Theorem requestEnhancement_no_device (t : MessageTemplate) (f : Frame) :
  chain (chain (chatCompletions (values (world f)))
           (fun ids => ids !! currentProviderIndex (world f)))
    getDeviceById = None ->
  exists (e : Exn) (f' : Frame),
    requestEnhancement t f = (inl e, f') /\
    clock (world f') = clock (world f) /\
    sent (world f') = sent (world f) /\
    heap (world f') = heap (world f).
Proof.
  intros Hnone. unfold requestEnhancement. unfold bind at 1.
  destruct (chatCompletions (values (world f))) as [[|p ps]|] eqn:Hids.
  - rewrite in_world_selectProvider_empty by auto. by eexists _, _.
  - rewrite (in_world_selectProvider_nonempty (p :: ps)) by done.
    unfold bind at 1, gets at 1. cbn [chain] in Hnone. rewrite Hnone.
    unfold bind at 1, throw at 1. by eexists _, _.
  - rewrite in_world_selectProvider_empty by auto. by eexists _, _.
Qed.

(** The skip: with no media, an empty media string, or the enhancement
    switched off, [sendNotification] forwards the original arguments once
    and returns what the downstream notifier returned; the event is counted
    as one without snapshot; the cursor, the settings and the options
    objects are as before and no provider is consulted. *)
Theorem sendNotification_skip (title : string) (options : option nat)
  (media icon : option Media) (w : World) :
  truthy_media media = None \/ enabled (values w) = false ->
  let c0 := mkCall title options (chain options (fun l => heap w !! l)) media icon in
  sendNotification title options media icon w =
  (mixinDevice_sendNotification (sent w) c0,
   mkWorld (count_skipped (notificationStats w)) (currentProviderIndex w)
     (values w) (provider_reads w) (heap w) (sent w ++ [c0]) (S (clock w))).
Proof.
  intros Hskip c0.
  unfold sendNotification, sendNotification_body, bind, update_stats, modify, gets.
  cbn [world values set_world set_stats].
  destruct (truthy_media media) as [m|] eqn:Hm.
  - destruct Hskip as [?|Hen]; [discriminate|]. rewrite Hen. reflexivity.
  - reflexivity.
Qed.

(** The full frame is not fetched in mode 'cropped', for an event that
    names no detection, or when there is no device to ask. *)
Lemma fetchFullFrame_skipped (m : Media) (f : Frame) :
  effective_snapshotMode (values (world f)) = "cropped" \/
  truthy (event_detectionId (options_value f)) = None \/
  detector (options_value f) m = None ->
  fetchFullFrame m f = (inr None, f).
Proof.
  intros Hcase. unfold fetchFullFrame. unfold bind at 1, gets at 1.
  destruct (String.eqb (effective_snapshotMode (values (world f))) "cropped")
    eqn:Hmode; [reflexivity|].
  destruct Hcase as [Hc|Hcase].
  { rewrite Hc in Hmode. discriminate. }
  unfold bind at 1, gets at 1.
  change (or_else (chain (chain (chain (options_value f) recordedEvent) re_data)
                     detectionId) _)
    with (event_detectionId (options_value f)).
  change (or_else (or_else _ _) _) with (event_sourceId (options_value f) m).
  destruct (truthy (event_detectionId (options_value f))) as [did|] eqn:Hdid;
    [|reflexivity].
  destruct Hcase as [?|Hdet]; [discriminate|].
  unfold detector in Hdet.
  destruct (truthy (event_sourceId (options_value f) m)) as [sid|]; [|reflexivity].
  destruct (getDeviceById sid) as [dev|]; [|reflexivity].
  destruct (has_getDetectionInput dev); [discriminate | reflexivity].
Qed.

(** With the event's image given as a reference and the mode 'cropped',
    [sendNotification] is [enhance] on the request that carries this one
    image, run in the frame in which the event has been counted. *)
Lemma sendNotification_body_cropped (title url : string)
  (options : option nat) (icon : option Media) (w : World) :
  enabled (values w) = true ->
  url <> EmptyString ->
  effective_snapshotMode (values w) = "cropped" ->
  sendNotification_body title (Some (MediaString url)) icon (mkFrame w options) =
  enhance title (Some (MediaString url)) icon
    (cropped_template w title url options) (enhancing_frame w options).
Proof.
  intros Hen Hurl Hmode.
  unfold sendNotification_body.
  unfold bind at 1, update_stats at 1, modify at 1.
  unfold bind at 1, gets at 1. cbn [world values set_world set_stats].
  rewrite Hen.
  assert (Hm : truthy_media (Some (MediaString url)) = Some (MediaString url)).
  { destruct url; [done | reflexivity]. }
  rewrite Hm.
  unfold bind at 1, update_stats at 1, modify at 1.
  unfold bind at 1, ret at 1.
  unfold bind at 1, try_catch at 1.
  rewrite fetchFullFrame_skipped by (left; exact Hmode).
  unfold bind at 1, gets at 1. rewrite Hmode.
  assert (Hlist : buildImageList "cropped" None (Some url) = [url]).
  { destruct url; [done | reflexivity]. }
  rewrite Hlist. reflexivity.
Qed.

Lemma options_update_then_pool {A : Type} (newSubtitle newBody : string)
  (k : M Frame A) (f : Frame) :
  exists f2 : Frame,
    options_updated newSubtitle newBody f f2 /\
    same_pool f f2 /\
    bind options_or_assign_empty
      (fun _ => bind (options_assign newBody newSubtitle) (fun _ => k)) f = k f2.
Proof.
  unfold bind, options_or_assign_empty, options_assign, options_updated,
    options_target.
  destruct (options_var f) as [l|] eqn:Hvar; simpl.
  - rewrite Hvar. eexists. split; [|split; [|reflexivity]]; simpl; by repeat split.
  - eexists. split; [|split; [|reflexivity]]; simpl; [|by repeat split].
    rewrite lookup_insert_eq, insert_insert_eq.
    assert (Hfresh : heap (world f) !! fresh (dom (heap (world f))) = None).
    { apply not_elem_of_dom, is_fresh. }
    rewrite Hfresh. by repeat split.
Qed.

(** End to end, success: a reference to the image, mode 'cropped', the
    provider at the cursor fulfils the call made with the request for this
    one image, and its answer parses to strings under title, subtitle and
    body.  Then the options object is overwritten with subtitle and body, the
    provider's turn is taken, and the downstream notifier receives the new
    title with that object and the original media and icon; if that call
    throws, a second call with the original title follows. *)
Theorem sendNotification_enhances (title url : string) (options : option nat)
  (icon : option Media) (w : World) (ids : list string) (pid : string)
  (dev : Device) (data : ChatCompletionData) (content : string) (json : Json)
  (newTitle newSubtitle newBody : string) :
  enabled (values w) = true ->
  url <> EmptyString ->
  effective_snapshotMode (values w) = "cropped" ->
  chatCompletions (values w) = Some ids ->
  ids !! currentProviderIndex w = Some pid ->
  getDeviceById pid = Some dev ->
  getChatCompletion (clock w) dev (cropped_template w title url options)
    (llmTimeout (values w)) = Fulfilled data ->
  head (choices data) = Some (Some content) ->
  content <> EmptyString ->
  JSON_parse content = inr json ->
  prop json "title" = Some (JString newTitle) ->
  prop json "subtitle" = Some (JString newSubtitle) ->
  prop json "body" = Some (JString newBody) ->
  let media := Some (MediaString url) in
  let r := (sendNotification title options media icon w).1 in
  let w' := (sendNotification title options media icon w).2 in
  let l := options_target (heap w) options in
  let o := enhanced_options newSubtitle newBody (heap w !! l) in
  let c1 := mkCall newTitle (Some l) (Some o) media icon in
  let c2 := mkCall title (Some l) (Some o) media icon in
  heap w' = <[l := o]> (heap w) /\
  currentProviderIndex w' = ((currentProviderIndex w + 1) mod length ids)%nat /\
  notificationStats w' = count_enhanced (notificationStats w) /\
  ((mixinDevice_sendNotification (sent w) c1 = inr tt /\
    r = inr tt /\ sent w' = (sent w ++ [c1])%list)
   \/
   (exists e,
      mixinDevice_sendNotification (sent w) c1 = inl e /\
      r = mixinDevice_sendNotification (sent w ++ [c1]) c2 /\
      sent w' = (sent w ++ [c1; c2])%list)).
Proof.
  intros Hen Hurl Hmode Hids Hpid Hdev Hchat Hhead Hne Hparse Ht Hs Hb
    media r w' l o c1 c2.
  subst r w' media.
  remember (sendNotification title options (Some (MediaString url)) icon w)
    as res eqn:Hres.
  unfold sendNotification in Hres.
  rewrite sendNotification_body_cropped in Hres by done.
  pose proof (requestEnhancement_fulfilled (cropped_template w title url options)
                (enhancing_frame w options) ids pid dev data content json
                newTitle newSubtitle newBody Hids Hpid Hdev Hchat Hhead Hne
                Hparse Ht Hs Hb) as Hreq.
  unfold enhance, try_catch in Hres. unfold bind at 1 in Hres.
  rewrite Hreq in Hres.
  match type of Hres with
  | context [bind options_or_assign_empty _ ?fr] =>
      destruct (options_update_then_pool newSubtitle newBody
                  (forward newTitle (Some (MediaString url)) icon) fr)
        as (f2 & Hup & Hpool & Hrun)
  end.
  rewrite Hrun in Hres. clear Hrun Hreq.
  destruct Hup as (U1 & U2 & U3 & U4 & U5). destruct Hpool as (P1 & _ & _).
  cbn [world options_var heap sent notificationStats values set_world tick
       set_cursor log_read enhancing_frame set_stats currentProviderIndex]
    in U1, U2, U3, U4, U5, P1.
  fold l in U4, U5. fold o in U5.
  assert (Hcall : forall t,
            call_of t (Some (MediaString url)) icon f2 =
            mkCall t (Some l) (Some o) (Some (MediaString url)) icon).
  { intros t. unfold call_of, options_value. rewrite U4, U5. cbn [chain].
    by rewrite lookup_insert_eq. }
  pose proof (idle_forward newTitle (Some (MediaString url)) icon f2) as Hi1.
  destruct (forward newTitle (Some (MediaString url)) icon f2) as [[e|[]] f3] eqn:Hfw;
    destruct Hi1 as (I1 & _ & _);
    destruct (forward_view _ _ _ _ _ _ Hfw) as (Hr & Hs' & Hh & Hst & Hv & Ho);
    rewrite Hcall in Hr, Hs'; rewrite U1 in Hr, Hs'; fold c1 in Hr, Hs'.
  - pose proof (idle_forward title (Some (MediaString url)) icon f3) as Hi2.
    destruct (forward title (Some (MediaString url)) icon f3) as [r4 f4] eqn:Hfb.
    destruct Hi2 as (J1 & _ & _).
    destruct (forward_view _ _ _ _ _ _ Hfb) as (Hr4 & Hs4 & Hh4 & Hst4 & Hv4 & Ho4).
    assert (Hcall3 : call_of title (Some (MediaString url)) icon f3 = c2).
    { unfold c2. rewrite <- (Hcall title).
      unfold call_of, options_value. by rewrite Ho, Hh. }
    rewrite Hcall3 in Hr4, Hs4. subst res. simpl in *.
    split; [congruence|]. split; [congruence|]. split; [congruence|].
    right. exists e. split; [done|]. split; [by rewrite Hr4, Hs'|].
    by rewrite Hs4, Hs', <- app_assoc.
  - subst res. simpl in *.
    split; [congruence|]. split; [congruence|]. split; [congruence|].
    left. by split.
Qed.


(** End to end, fallback: a reference to the image, mode 'cropped', and
    the request fails, for whatever reason (no provider, a rejected or late
    call, an empty or unparsable answer, a field that is not a string).  Then
    the downstream notifier receives the original notification once, the
    caller gets the outcome of that call, and no options object is
    touched. *)
Theorem sendNotification_falls_back (title url : string) (options : option nat)
  (icon : option Media) (w : World) (e : Exn) (f1 : Frame) :
  enabled (values w) = true ->
  url <> EmptyString ->
  effective_snapshotMode (values w) = "cropped" ->
  requestEnhancement (cropped_template w title url options)
    (enhancing_frame w options) = (inl e, f1) ->
  let media := Some (MediaString url) in
  let c0 := mkCall title options (chain options (fun l => heap w !! l)) media icon in
  (sendNotification title options media icon w).1
    = mixinDevice_sendNotification (sent w) c0 /\
  sent (sendNotification title options media icon w).2 = (sent w ++ [c0])%list /\
  heap (sendNotification title options media icon w).2 = heap w /\
  notificationStats (sendNotification title options media icon w).2
    = count_enhanced (notificationStats w).
Proof.
  intros Hen Hurl Hmode Hreq media c0. subst media.
  remember (sendNotification title options (Some (MediaString url)) icon w)
    as res eqn:Hres.
  unfold sendNotification in Hres.
  rewrite sendNotification_body_cropped in Hres by done.
  pose proof (quiet_requestEnhancement (cropped_template w title url options)
                (enhancing_frame w options)) as Hq.
  rewrite Hreq in Hq. destruct Hq as (Q1 & Q2 & Q3 & Q4 & Q5).
  unfold enhance, try_catch in Hres. unfold bind at 1 in Hres.
  rewrite Hreq in Hres. unfold forward in Hres. subst res.
  unfold options_value. simpl in *. rewrite Q1, Q2, Q3, Q5. by repeat split.
Qed.

(** The full frame is not fetched, and nothing is awaited for it (no
    detection input is asked for and the media manager is not called), in
    mode 'cropped', for an event that names no detection, and when the
    event has no source, the registry has no device for it, or that device
    cannot give detection inputs.  Only in the last two cases has the
    registry been consulted. *)
Theorem fetchFullFrame_not_fetched (m : Media) (f : Frame) :
  effective_snapshotMode (values (world f)) = "cropped" \/
  truthy (event_detectionId (options_value f)) = None \/
  detector (options_value f) m = None ->
  try_catch (fetchFullFrame m) (fun _ => ret None) f = (inr None, f).
Proof.
  intros Hcase. unfold try_catch. by rewrite fetchFullFrame_skipped.
Qed.

(** The steps of the full-frame fetch up to the frame's bytes. *)
Lemma fetchFullFrame_reaches_frame (m : Media) (f : Frame) (did : string)
  (dev : Device) (fullMo : MediaObject) :
  String.eqb (effective_snapshotMode (values (world f))) "cropped" = false ->
  truthy (event_detectionId (options_value f)) = Some did ->
  detector (options_value f) m = Some dev ->
  getDetectionInput (clock (world f)) dev did (event_eventId (options_value f))
    = inr fullMo ->
  fetchFullFrame m f =
  try_catch
    (let* fullBuf :=
       in_world (await (fun t => convertMediaObjectToBuffer t fullMo)) in
     let* dims := lift (getJpegDimensions fullBuf) in
     let* resized :=
       lift (resizeJpegNearest fullBuf (Z.min (targetWidthFor dims.1) dims.1) 60) in
     ret (Some (dataUrl resized)))
    (fun _ =>
     let* buf :=
       in_world (await (fun t => convertMediaObjectToBuffer t fullMo)) in
     ret (Some (dataUrl buf)))
    (set_world (tick (world f)) f).
Proof.
  intros Hmode Hdid Hdet Hget.
  unfold fetchFullFrame. unfold bind at 1, gets at 1. rewrite Hmode.
  unfold bind at 1, gets at 1.
  change (or_else (chain (chain (chain (options_value f) recordedEvent) re_data)
                     detectionId) _)
    with (event_detectionId (options_value f)).
  change (or_else (or_else _ _) _) with (event_sourceId (options_value f) m).
  rewrite Hdid. unfold detector in Hdet.
  destruct (truthy (event_sourceId (options_value f) m)) as [sid|]; [|discriminate].
  destruct (getDeviceById sid) as [d|]; [|discriminate].
  destruct (has_getDetectionInput d); [|discriminate].
  injection Hdet as ->.
  unfold bind at 1, in_world at 1, zoom, await at 1.
  change (chain (chain (options_value f) recordedEvent) eventId)
    with (event_eventId (options_value f)).
  rewrite Hget. reflexivity.
Qed.

(** A full frame that cannot be decoded is still used: when the resize
    throws, the frame is converted once more and passed on as it is. *)
Theorem fetchFullFrame_resize_fallback (m : Media) (f : Frame) (did : string)
  (dev : Device) (fullMo : MediaObject) (fullBuf buf : Buffer) (e : Exn) :
  String.eqb (effective_snapshotMode (values (world f))) "cropped" = false ->
  truthy (event_detectionId (options_value f)) = Some did ->
  detector (options_value f) m = Some dev ->
  getDetectionInput (clock (world f)) dev did (event_eventId (options_value f))
    = inr fullMo ->
  convertMediaObjectToBuffer (S (clock (world f))) fullMo = inr fullBuf ->
  jpeg_decode fullBuf = inl e ->
  convertMediaObjectToBuffer (S (S (clock (world f)))) fullMo = inr buf ->
  fetchFullFrame m f =
  (inr (Some (dataUrl buf)), set_world (ticks 3 (world f)) f).
Proof.
  intros Hmode Hdid Hdet Hget Hconv Hdec Hconv2.
  rewrite (fetchFullFrame_reaches_frame m f did dev fullMo) by done.
  unfold try_catch. unfold bind at 1, in_world at 1, zoom, await at 1.
  cbn [world clock set_world tick]. rewrite Hconv.
  unfold bind at 1, lift at 1, getJpegDimensions. rewrite Hdec.
  unfold bind at 1, in_world at 1, zoom, await at 1.
  cbn [world clock set_world tick]. rewrite Hconv2. reflexivity.
Qed.

(** A full frame of at most 800 pixels in width is passed on byte for
    byte. *)
Theorem fetchFullFrame_passes_small_frame (m : Media) (f : Frame) (did : string)
  (dev : Device) (fullMo : MediaObject) (fullBuf : Buffer) (img : RawImage) :
  String.eqb (effective_snapshotMode (values (world f))) "cropped" = false ->
  truthy (event_detectionId (options_value f)) = Some did ->
  detector (options_value f) m = Some dev ->
  getDetectionInput (clock (world f)) dev did (event_eventId (options_value f))
    = inr fullMo ->
  convertMediaObjectToBuffer (S (clock (world f))) fullMo = inr fullBuf ->
  jpeg_decode fullBuf = inr img ->
  width img <= 800 ->
  fetchFullFrame m f =
  (inr (Some (dataUrl fullBuf)), set_world (ticks 2 (world f)) f).
Proof.
  intros Hmode Hdid Hdet Hget Hconv Hdec Hw.
  rewrite (fetchFullFrame_reaches_frame m f did dev fullMo) by done.
  unfold try_catch. unfold bind at 1, in_world at 1, zoom, await at 1.
  cbn [world clock set_world tick]. rewrite Hconv.
  unfold bind at 1, lift at 1, getJpegDimensions. rewrite Hdec.
  cbn [fst]. unfold bind at 1, lift at 1.
  assert (Hres : resizeJpegNearest fullBuf
                   (Z.min (targetWidthFor (width img)) (width img)) 60
                 = inr fullBuf).
  { unfold resizeJpegNearest. rewrite Hdec.
    destruct ((width img =? 0) || (height img =? 0)); [done|].
    assert (Htw : targetWidthFor (width img) = width img).
    { unfold targetWidthFor.
      repeat match goal with |- context [?a <? ?b] =>
        destruct (Z.ltb_spec a b) end; lia. }
    cbv zeta. rewrite Htw, !Z.min_id, Z.eqb_refl. reflexivity. }
  rewrite Hres. reflexivity.
Qed.

(** When the conversion of the attached media object throws,
    [sendNotification] throws that error: the event has been counted as one
    with a snapshot, but nothing is forwarded, no provider is consulted and
    no options object is touched. *)
Theorem sendNotification_conversion_error (title : string)
  (options : option nat) (mo : MediaObject) (icon : option Media) (w : World)
  (e : Exn) :
  enabled (values w) = true ->
  convertMediaObjectToBuffer (clock w) mo = inl e ->
  sendNotification title options (Some (MediaObj mo)) icon w =
  (inl e,
   mkWorld (count_enhanced (notificationStats w)) (currentProviderIndex w)
     (values w) (provider_reads w) (heap w) (sent w) (S (clock w))).
Proof.
  intros Hen Hconv.
  unfold sendNotification, sendNotification_body.
  unfold bind at 1, update_stats at 1, modify at 1.
  unfold bind at 1, gets at 1. cbn [world values set_world set_stats truthy_media].
  rewrite Hen.
  unfold bind at 1, update_stats at 1, modify at 1.
  unfold bind at 1. unfold bind at 1, in_world at 1, zoom, await at 1.
  cbn [world clock set_world set_stats]. rewrite Hconv. reflexivity.
Qed.

(** ** The run as a whole: what is mutated, and when *)

(** Lines 181-253, once [imageUrl] is known: they always give a list of
    images, which is not empty, and a request. *)
Lemma prepare_tail (v : StorageValues) (title : string) (media : option Media)
  (m : Media) (imageUrl : string) (f : Frame) :
  truthy_media media = Some m ->
  m = MediaString imageUrl \/ (exists buffer, imageUrl = dataUrl buffer) ->
  exists (imageUrls : list string) (t : MessageTemplate) (f1 : Frame),
    (let* fullFrameUrl := try_catch (fetchFullFrame m) (fun _ => ret None) in
     let* options := gets options_value in
     ret (buildImageList (effective_snapshotMode v) fullFrameUrl (Some imageUrl),
          createMessageTemplate (userPrompt v)
            (buildImageList (effective_snapshotMode v) fullFrameUrl (Some imageUrl))
            (buildMetadata v title options))) f
    = (inr (imageUrls, t), f1) /\
    imageUrls <> [] /\ same_view f f1.
Proof.
  intros Hm Hurl.
  assert (Hq : quiet (try_catch (fetchFullFrame m) (fun _ => ret None))).
  { apply quiet_try_catch; [apply quiet_fetchFullFrame | intros; apply quiet_ret]. }
  specialize (Hq f).
  destruct (try_catch_ret_total (fetchFullFrame m) None f) as (url & f1 & Hfetch).
  rewrite Hfetch in Hq. simpl in Hq.
  unfold bind at 1. rewrite Hfetch. unfold bind, gets, ret.
  eexists _, _, _. split; [reflexivity|]. split; [|exact Hq].
  by apply (snapshot_list_never_empty media m).
Qed.

(** [prepare] fails only when the conversion of the attached media object
    throws; otherwise its list of images is not empty.  Either way it
    changes nothing a caller can see but the counter. *)
Lemma prepare_cases (title : string) (media : option Media) (m : Media)
  (f : Frame) :
  truthy_media media = Some m ->
  match prepare title m f with
  | (inl e, f1) =>
      counted bump_withSnapshot f f1 /\
      exists mo, m = MediaObj mo /\
                 convertMediaObjectToBuffer (clock (world f)) mo = inl e
  | (inr (imageUrls, t), f1) =>
      counted bump_withSnapshot f f1 /\ imageUrls <> []
  end.
Proof.
  intros Hm. unfold prepare.
  unfold bind at 1, gets at 1.
  unfold bind at 1, update_stats at 1, modify at 1.
  set (fE := set_world (set_stats (bump_withSnapshot _) _) _).
  assert (HfE : counted bump_withSnapshot f fE) by by repeat split.
  assert (Hclock : clock (world fE) = clock (world f)) by reflexivity.
  clearbody fE.
  unfold bind at 1.
  destruct m as [s|mo].
  - unfold ret at 1.
    destruct (prepare_tail (values (world f)) title media (MediaString s) s fE Hm)
      as (urls & t & f1 & -> & Hne & Hv); [by left|].
    split; [|exact Hne]. eapply counted_same_view; eauto.
  - unfold bind at 1, in_world at 1, zoom, await at 1. rewrite Hclock.
    destruct (convertMediaObjectToBuffer (clock (world f)) mo) as [e|buffer] eqn:Hconv.
    + split; [|by exists mo].
      eapply counted_same_view; [exact HfE|]. by repeat split.
    + unfold ret at 1.
      destruct (prepare_tail (values (world f)) title media (MediaObj mo)
                  (dataUrl buffer) (set_world (tick (world fE)) fE) Hm)
        as (urls & t & f1 & -> & Hne & Hv); [right; by exists buffer|].
      split; [|exact Hne].
      eapply counted_same_view; [|exact Hv].
      eapply counted_same_view; [exact HfE|]. by repeat split.
Qed.

(** Past the guard, [sendNotification_body] is [prepare] followed by the
    choice of lines 244-291. *)
Lemma sendNotification_body_prepare (title : string) (media icon : option Media)
  (m : Media) (w : World) (options : option nat) :
  truthy_media media = Some m ->
  enabled (values w) = true ->
  sendNotification_body title media icon (mkFrame w options) =
  (let* p := prepare title m in
   match p.1 with
   | [] => forward title media icon
   | _ :: _ => enhance title media icon p.2
   end) (counting_frame w options).
Proof.
  intros Hm Hen.
  unfold sendNotification_body, prepare, counting_frame.
  unfold bind at 1, update_stats at 1, modify at 1.
  unfold bind at 1, gets at 1. cbn [world values set_world set_stats options_var].
  rewrite Hm, Hen.
  unfold bind, update_stats, modify, gets, ret.
  cbn [world values set_world set_stats options_var].
  destruct m as [s|mo].
  - destruct (try_catch _ _ _) as [[e|url] f1]; [reflexivity|].
    cbn [fst snd]. by destruct (buildImageList _ _ _).
  - destruct (in_world _ _) as [[e|buffer] f0]; [reflexivity|].
    destruct (try_catch _ _ _) as [[e|url] f1]; [reflexivity|].
    cbn [fst snd]. by destruct (buildImageList _ _ _).
Qed.

(** C4 (amended): every call made by one run carries the original [media]
    and [icon].  On the skip path nothing is mutated and the one call is the
    original notification.  Past the guard, with [prepare] giving the
    request: if the conversion of the attached media object throws, nothing
    is mutated and nothing is sent; if the request fails, nothing is mutated
    and the one call is the original notification; if it gives a validated
    response, then the object [options] refers to (a new one, with no other
    field, when no [options] was passed) has its subtitle and body
    overwritten in place with those of the response, its other fields kept,
    no other object is touched, and that object is what the downstream
    notifier receives, with the title of the response and, should that call
    throw, once more with the original title.  The three texts are the
    strings under title, subtitle and body of what [JSON.parse] made of the
    first choice of the fulfilled call. *)
Theorem sendNotification_frame (title : string) (options : option nat)
  (media icon : option Media) (w : World) :
  let r := (sendNotification title options media icon w).1 in
  let w' := (sendNotification title options media icon w).2 in
  let c0 := mkCall title options (chain options (fun l => heap w !! l)) media icon in
  let l := options_target (heap w) options in
  (exists cs : list Call,
     sent w' = (sent w ++ cs)%list /\
     Forall (fun c => c_media c = media /\ c_icon c = icon) cs) /\
  (truthy_media media = None \/ enabled (values w) = false ->
   heap w' = heap w /\ sent w' = (sent w ++ [c0])%list) /\
  (forall m : Media,
     truthy_media media = Some m ->
     enabled (values w) = true ->
     match prepare title m (counting_frame w options) with
     | (inl e, _) => heap w' = heap w /\ sent w' = sent w /\ r = inl e
     | (inr (imageUrls, messageTemplate), f1) =>
         match requestEnhancement messageTemplate f1 with
         | (inl e, _) =>
             heap w' = heap w /\ sent w' = (sent w ++ [c0])%list /\
             r = mixinDevice_sendNotification (sent w) c0
         | (inr (newTitle, newSubtitle, newBody), _) =>
             let o := enhanced_options newSubtitle newBody (heap w !! l) in
             let c1 := mkCall newTitle (Some l) (Some o) media icon in
             let c2 := mkCall title (Some l) (Some o) media icon in
             heap w' = <[l := o]> (heap w) /\
             ((mixinDevice_sendNotification (sent w) c1 = inr tt /\
               sent w' = (sent w ++ [c1])%list /\ r = inr tt)
              \/
              (exists e,
                 mixinDevice_sendNotification (sent w) c1 = inl e /\
                 sent w' = (sent w ++ [c1; c2])%list /\
                 r = mixinDevice_sendNotification (sent w ++ [c1]) c2)) /\
             (exists dev data content json,
                getChatCompletion (clock (world f1)) dev messageTemplate
                  (llmTimeout (values w)) = Fulfilled data /\
                head (choices data) = Some (Some content) /\
                JSON_parse content = inr json /\
                prop json "title" = Some (JString newTitle) /\
                prop json "subtitle" = Some (JString newSubtitle) /\
                prop json "body" = Some (JString newBody)) /\
             (options = None ->
              o = mkOptions (Some newSubtitle) (Some newBody) None None)
         end
     end).
Proof.
  intros r w' c0 l. split; [|split].
  - destruct (sendNotification_effects title options media icon w)
      as (f' & Heq & _ & _ & cs & Hs & Hcase).
    subst w'. rewrite Heq. simpl in *. exists cs. split; [exact Hs|].
    destruct Hcase as [(_ & -> & _)
                      |[(_ & -> & _)
                       |(nt & ns & nb & _ & _ & _ & [(-> & _)|(-> & _)])]];
      by repeat constructor.
  - intros Hskip. subst w' c0.
    unfold sendNotification, sendNotification_body, bind, update_stats, modify, gets.
    cbn [world values set_world set_stats].
    destruct (truthy_media media) as [m|] eqn:Hm.
    + destruct Hskip as [?|Hen]; [discriminate|]. rewrite Hen. by split.
    + by split.
  - intros m Hm Hen. subst r w'.
    remember (sendNotification title options media icon w) as res eqn:Hres.
    unfold sendNotification in Hres.
    rewrite (sendNotification_body_prepare title media icon m) in Hres by done.
    unfold bind at 1 in Hres.
    pose proof (prepare_cases title media m (counting_frame w options) Hm) as Hprep.
    destruct (prepare title m (counting_frame w options))
      as [[e|[imageUrls t]] f1].
    + destruct Hprep as ((P1 & P2 & _) & _). subst res. by repeat split.
    + destruct Hprep as ((P1 & P2 & _ & P4 & P5) & Hne).
      destruct imageUrls as [|u us]; [done|]. cbn [fst snd] in Hres.
      cbn [counting_frame world sent heap values options_var set_stats]
        in P1, P2, P4, P5.
      unfold enhance, try_catch in Hres. unfold bind at 1 in Hres.
      pose proof (quiet_requestEnhancement t f1) as Hq.
      destruct (requestEnhancement t f1) as [[e|[[nt ns] nb]] f2] eqn:Hreq;
        simpl in Hq; destruct Hq as (Q1 & Q2 & _ & _ & Q5).
      * subst res. unfold forward, options_value. simpl.
        rewrite Q1, Q2, Q5, P1, P2, P5. by repeat split.
      * destruct (requestEnhancement_validated _ _ _ _ _ _ Hreq)
          as (ids & pid & dev & data & content & json & _ & _ & _ & Hchat
              & Hhead & _ & Hparse & Ht & Hs & Hb).
        rewrite P4 in Hchat.
        destruct (options_update_then ns nb (forward nt media icon) f2)
          as (f3 & Hup & Hrun).
        rewrite Hrun in Hres. clear Hrun.
        destruct Hup as (U1 & _ & _ & U4 & U5).
        rewrite Q1, P1 in U1. rewrite Q2, Q5, P2, P5 in U4, U5.
        fold l in U4, U5.
        set (o := enhanced_options ns nb (heap w !! l)) in *.
        assert (Hcall : forall x, call_of x media icon f3 =
                                  mkCall x (Some l) (Some o) media icon).
        { intros x. unfold call_of, options_value. rewrite U4, U5. cbn [chain].
          by rewrite lookup_insert_eq. }
        assert (Hnew : options = None -> o = mkOptions (Some ns) (Some nb) None None).
        { intros Hnone. unfold o, l, options_target, enhanced_options.
          rewrite Hnone. cbn [default].
          assert (Hfresh : heap w !! fresh (dom (heap w)) = None).
          { apply not_elem_of_dom, is_fresh. }
          by rewrite Hfresh. }
        cbv zeta. fold o.
        destruct (forward nt media icon f3) as [[e|[]] f4] eqn:Hfw;
          destruct (forward_view _ _ _ _ _ _ Hfw) as (Hr & Hs4 & Hh4 & _ & _ & Ho4);
          rewrite Hcall, U1 in Hr, Hs4.
        -- destruct (forward title media icon f4) as [r5 f5] eqn:Hfb.
           destruct (forward_view _ _ _ _ _ _ Hfb) as (Hr5 & Hs5 & Hh5 & _).
           assert (Hcall4 : call_of title media icon f4 =
                            mkCall title (Some l) (Some o) media icon).
           { rewrite <- Hcall. unfold call_of, options_value. by rewrite Ho4, Hh4. }
           rewrite Hcall4, Hs4 in Hr5, Hs5. subst res. simpl.
           split; [congruence|]. split.
           { right. exists e. split; [done|].
             split; [by rewrite Hs5, <- app_assoc | done]. }
           split; [by exists dev, data, content, json | exact Hnew].
        -- subst res. simpl.
           split; [congruence|]. split; [left; by repeat split|].
           split; [by exists dev, data, content, json | exact Hnew].
Qed.

(** Inside [sendNotification] the list of images is never empty: whatever
    stands in the place of lines 245-246 ('No usable snapshot'), the run is
    the same, from every frame and for all arguments; with the forward of
    line 246 there, the function is [sendNotification_body] itself. *)
Theorem sendNotification_snapshot_branch_dead (title : string)
  (media icon : option Media) :
  sendNotification_body_with (forward title media icon) title media icon =
    sendNotification_body title media icon /\
  forall (alt : M Frame unit) (f : Frame),
    sendNotification_body_with alt title media icon f =
    sendNotification_body title media icon f.
Proof.
  split; [reflexivity|]. intros alt f.
  unfold sendNotification_body_with, sendNotification_body.
  unfold bind, update_stats, modify, gets, ret.
  cbn [world values set_world set_stats].
  destruct (truthy_media media) as [m|] eqn:Hm; [|reflexivity].
  destruct (enabled (values (world f))); [|reflexivity].
  destruct m as [s|mo].
  - destruct (try_catch _ _ _) as [[e|url] f1]; [reflexivity|].
    destruct (buildImageList _ url (Some s)) eqn:Hlist; [|reflexivity].
    exfalso. revert Hlist.
    apply (snapshot_list_never_empty media (MediaString s)); [exact Hm | by left].
  - destruct (in_world _ _) as [[e|buffer] f0]; [reflexivity|].
    destruct (try_catch _ _ _) as [[e|url] f1]; [reflexivity|].
    destruct (buildImageList _ url (Some (dataUrl buffer))) eqn:Hlist; [|reflexivity].
    exfalso. revert Hlist.
    apply (snapshot_list_never_empty media (MediaObj mo)); [exact Hm|].
    right. by exists buffer.
Qed.

End EnhancementMore.

Section SelectMany.

Context `{Host}.

(** With a fixed non-empty provider list and the cursor inside it, the
    selection number [j] from now (counting from 0) returns the device of
    the provider at position [(cursor + j) mod N], for any number of
    selections, and after [n] selections the cursor is at
    [(cursor + n) mod N]. *)
Theorem select_many_nth (ids : list string) (w : World) (n j : nat) :
  ids <> [] ->
  chatCompletions (values w) = Some ids ->
  (currentProviderIndex w < length ids)%nat ->
  (j < n)%nat ->
  (exists pid,
     ids !! ((currentProviderIndex w + j) mod length ids)%nat = Some pid /\
     (select_many n w).1 !! j = Some (inr (getDeviceById pid))) /\
  currentProviderIndex (select_many n w).2 =
    ((currentProviderIndex w + n) mod length ids)%nat.
Proof.
  intros Hne Hids Hc Hj.
  destruct (select_many_lookup ids n Hne w Hids Hc) as (Hrs & Hcur & _).
  split; [|exact Hcur].
  destruct (lookup_lt_is_Some_2 ids ((currentProviderIndex w + j) mod length ids))
    as [pid Hpid]; [apply Nat.mod_upper_bound; lia|].
  exists pid. split; [exact Hpid|].
  rewrite Hrs, list_lookup_fmap, lookup_seq_lt by lia. simpl.
  by rewrite Hpid.
Qed.

End SelectMany.

(** ** The added properties on concrete surroundings *)

Lemma select_many_nth_witness :
  (@select_many happy_host 5 Samples.world0).1 !! 4%nat =
    Some (inr (Some (mkDevice "llm-b"))) /\
  currentProviderIndex (@select_many happy_host 5 Samples.world0).2 = 2%nat.
Proof.
  destruct (@select_many_nth happy_host ["llm-a"; "llm-b"; "llm-c"]
              Samples.world0 5 4) as ((pid & Hpid & Hsel) & Hcur).
  - discriminate.
  - reflexivity.
  - simpl. lia.
  - lia.
  - split; [|exact Hcur]. rewrite Hsel.
    injection Hpid as <-. reflexivity.
Defined.

Lemma run_pool_witness :
  (currentProviderIndex
     (@run happy_host
        [mkInbound "Person" (Some 0%nat) (Some (MediaString crop_url)) None;
         mkInbound "Car" None None None] Samples.world0) < 3)%nat.
Proof.
  destruct (@run_pool happy_host ["llm-a"; "llm-b"; "llm-c"]
              [mkInbound "Person" (Some 0%nat) (Some (MediaString crop_url)) None;
               mkInbound "Car" None None None] Samples.world0) as (Hc & _ & _).
  - reflexivity.
  - simpl. lia.
  - exact Hc.
Defined.

Lemma requestEnhancement_sound_witness :
  exists json : Json,
    @JSON_parse happy_host "richard" = inr json /\
    prop json "title" = Some (JString "Richard at front door").
Proof.
  destruct (@requestEnhancement_sound happy_host
              (@cropped_template happy_host Samples.world0 "Person" crop_url (Some 0%nat))
              (enhancing_frame Samples.world0 (Some 0%nat))
              (@requestEnhancement happy_host
                 (@cropped_template happy_host Samples.world0 "Person" crop_url (Some 0%nat))
                 (enhancing_frame Samples.world0 (Some 0%nat))).2
              "Richard at front door" "Person - Front door"
              "Walking up holding a package.")
    as (ids & pid & dev & data & content & json & _ & _ & _ & Hchat & Hhead & _
        & Hparse & Ht & _).
  - vm_compute. reflexivity.
  - exists json. split; [|exact Ht].
    injection Hchat as <-. injection Hhead as <-. exact Hparse.
Defined.

Lemma requestEnhancement_takes_turn_witness :
  currentProviderIndex
    (world (@requestEnhancement late_host
              (@cropped_template late_host Samples.world0 "Person" crop_url (Some 0%nat))
              (enhancing_frame Samples.world0 (Some 0%nat))).2) = 1%nat.
Proof.
  destruct (@requestEnhancement_takes_turn late_host
              (@cropped_template late_host Samples.world0 "Person" crop_url (Some 0%nat))
              (enhancing_frame Samples.world0 (Some 0%nat))
              ["llm-a"; "llm-b"; "llm-c"]) as (Hcur & _ & _).
  - reflexivity.
  - discriminate.
  - exact Hcur.
Defined.

Lemma requestEnhancement_no_device_witness :
  exists (e : Exn) (f' : Frame),
    @requestEnhancement happy_host
      (@cropped_template happy_host world_no_provider "Person" crop_url (Some 0%nat))
      (enhancing_frame world_no_provider (Some 0%nat)) = (inl e, f') /\
    clock (world f') = 0%nat.
Proof.
  destruct (@requestEnhancement_no_device happy_host
              (@cropped_template happy_host world_no_provider "Person" crop_url (Some 0%nat))
              (enhancing_frame world_no_provider (Some 0%nat)))
    as (e & f' & Hreq & Hclock & _).
  - reflexivity.
  - exists e, f'. split; [exact Hreq | exact Hclock].
Defined.

Lemma sendNotification_skip_witness :
  (@sendNotification happy_host "Car" (Some 0%nat) None None Samples.world0).1
    = inr tt /\
  notificationStats
    (@sendNotification happy_host "Car" (Some 0%nat) None None Samples.world0).2
    = mkStats 0 1 1.
Proof.
  rewrite (@sendNotification_skip happy_host "Car" (Some 0%nat) None None
             Samples.world0) by (left; reflexivity).
  split; reflexivity.
Defined.

Lemma sendNotification_enhances_witness :
  map c_title
    (sent (@sendNotification happy_host "Person" (Some 0%nat)
             (Some (MediaString crop_url)) None Samples.world0).2)
  = ["Richard at front door"].
Proof.
  destruct (@sendNotification_enhances happy_host "Person" crop_url (Some 0%nat)
              None Samples.world0 ["llm-a"; "llm-b"; "llm-c"] "llm-a"
              (mkDevice "llm-a") (mkChat [Some "richard"]) "richard"
              Samples.richard "Richard at front door" "Person - Front door"
              "Walking up holding a package.")
    as (_ & _ & _ & [(_ & _ & Hsent)|(e & He & _)]);
    [reflexivity | discriminate | reflexivity | reflexivity | reflexivity
    | reflexivity | reflexivity | reflexivity | discriminate | reflexivity
    | reflexivity | reflexivity | reflexivity | | ].
  - rewrite Hsent. reflexivity.
  - vm_compute in He. discriminate He.
Defined.

Lemma sendNotification_falls_back_witness :
  map c_title
    (sent (@sendNotification late_host "Person" (Some 0%nat)
             (Some (MediaString crop_url)) None Samples.world0).2)
  = ["Person"] /\
  heap (@sendNotification late_host "Person" (Some 0%nat)
          (Some (MediaString crop_url)) None Samples.world0).2
  = heap Samples.world0.
Proof.
  destruct (@sendNotification_falls_back late_host "Person" crop_url (Some 0%nat)
              None Samples.world0 (Error "LLM request timed out")
              (@requestEnhancement late_host
                 (@cropped_template late_host Samples.world0 "Person" crop_url (Some 0%nat))
                 (enhancing_frame Samples.world0 (Some 0%nat))).2)
    as (_ & Hsent & Hheap & _).
  - reflexivity.
  - discriminate.
  - reflexivity.
  - vm_compute. reflexivity.
  - split; [rewrite Hsent; reflexivity | exact Hheap].
Defined.

Lemma enhance_failure_forwards_original_witness :
  (@enhance late_host "Person" (Some (MediaString crop_url)) None
     (@cropped_template late_host Samples.world0 "Person" crop_url (Some 0%nat))
     (enhancing_frame Samples.world0 (Some 0%nat))).1 = inr tt.
Proof.
  destruct (@enhance_failure_forwards_original late_host "Person"
              (Some (MediaString crop_url)) None
              (@cropped_template late_host Samples.world0 "Person" crop_url (Some 0%nat))
              (enhancing_frame Samples.world0 (Some 0%nat))
              (@requestEnhancement late_host
                 (@cropped_template late_host Samples.world0 "Person" crop_url (Some 0%nat))
                 (enhancing_frame Samples.world0 (Some 0%nat))).2
              (Error "LLM request timed out")) as (_ & _ & Hr & _).
  - vm_compute. reflexivity.
  - rewrite Hr. reflexivity.
Defined.

Lemma fetchFullFrame_not_fetched_witness :
  @try_catch Frame (option string)
    (@fetchFullFrame happy_host Samples.snapshot) (fun _ => ret None)
    (mkFrame Samples.world0 (Some 0%nat))
  = (inr None, mkFrame Samples.world0 (Some 0%nat)).
Proof.
  apply (@fetchFullFrame_not_fetched happy_host). left. reflexivity.
Defined.

Lemma fetchFullFrame_resize_fallback_witness :
  (@fetchFullFrame host_undecodable Samples.snapshot
     (mkFrame world_both (Some 0%nat))).1
  = inr (Some "data:image/jpeg;base64,QUJD").
Proof.
  rewrite (@fetchFullFrame_resize_fallback host_undecodable Samples.snapshot
             (mkFrame world_both (Some 0%nat)) "det-1" (mkDevice "camera-1")
             (mkMediaObject 7 None) sample_4x2 sample_4x2 (Error "SOI not found"));
    reflexivity.
Defined.

Lemma fetchFullFrame_passes_small_frame_witness :
  (@fetchFullFrame happy_host Samples.snapshot
     (mkFrame world_both (Some 0%nat))).1
  = inr (Some "data:image/jpeg;base64,QUJD").
Proof.
  rewrite (@fetchFullFrame_passes_small_frame happy_host Samples.snapshot
             (mkFrame world_both (Some 0%nat)) "det-1" (mkDevice "camera-1")
             (mkMediaObject 7 None) sample_4x2 (mkRawImage sample_4x2 4 2));
    try reflexivity.
  simpl. lia.
Defined.

Lemma sendNotification_conversion_error_witness :
  sent (@sendNotification
          (Samples.host_with Samples.convert_fails Samples.chat_richard
             Samples.downstream_ok)
          "Person" (Some 0%nat) (Some Samples.snapshot) None Samples.world0).2
  = [].
Proof.
  unfold Samples.snapshot.
  rewrite (@sendNotification_conversion_error
             (Samples.host_with Samples.convert_fails Samples.chat_richard
                Samples.downstream_ok)
             "Person" (Some 0%nat) (mkMediaObject 1 None) None Samples.world0
             (Error "conversion failed")); reflexivity.
Defined.

(** Witness for C4.  An enhancement: the caller's object at reference 0
    ends with the subtitle and body of the response, and the downstream
    notifier receives it with the title of the response and the attached
    media object.  A skip: without media nothing is mutated. *)
Lemma sendNotification_frame_witness :
  let enhanced :=
    mkOptions (Some "Person - Front door") (Some "Walking up holding a package.")
      None None in
  let w1 := (@sendNotification happy_host "Person" (Some 0%nat)
               (Some Samples.snapshot) None Samples.world0).2 in
  let w2 := (@sendNotification happy_host "Car" (Some 0%nat) None None
               Samples.world0).2 in
  (heap w1 = <[0%nat := enhanced]> (heap Samples.world0) /\
   sent w1 = [mkCall "Richard at front door" (Some 0%nat) (Some enhanced)
                (Some Samples.snapshot) None]) /\
  (heap w2 = heap Samples.world0 /\
   sent w2 = [mkCall "Car" (Some 0%nat) (Some Samples.motion) None None]).
Proof.
  intros enhanced w1 w2. split.
  - destruct (@sendNotification_frame happy_host "Person" (Some 0%nat)
                (Some Samples.snapshot) None Samples.world0) as (_ & _ & Henh).
    specialize (Henh Samples.snapshot eq_refl eq_refl).
    destruct (@prepare happy_host "Person" Samples.snapshot
                (counting_frame Samples.world0 (Some 0%nat)))
      as [[e|[imageUrls t]] f1] eqn:Hprep;
      vm_compute in Hprep; [discriminate Hprep|].
    injection Hprep as <- <- <-.
    match type of Henh with
    | match ?req with _ => _ end =>
        destruct req as [[e|[[nt ns] nb]] f2] eqn:Hreq;
          vm_compute in Hreq; [discriminate Hreq|]
    end.
    injection Hreq as <- <- <- <-.
    destruct Henh as (Hheap & [(_ & Hsent & _)|(e & He & _)] & _ & _).
    + split; [exact Hheap | exact Hsent].
    + vm_compute in He. discriminate He.
  - destruct (@sendNotification_frame happy_host "Car" (Some 0%nat) None None
                Samples.world0) as (_ & Hskip & _).
    apply Hskip. left. reflexivity.
Defined.
